(** * mongos per-client bookkeeping: [ClientInfo] (src/mongo/s/client_info.{h,cpp})

    A shallow embedding of the [ClientInfo] class of the routing tier and of
    its write-concern enforcement loop, followed by the properties that the
    specification states about them.

    Layout of the development:
    - [Externals]: the declarations that [client_info.cpp] uses but that live
      in other translation units (HostAndPort, OpTime, BSON documents, the
      scoped connection to a shard, ...), taken as parameters;
    - the data model ([RequestInfo], [ClientInfo]; the two pointers [_cur] and
      [_prev] are kept as addresses of the two owned buffers, so aliasing is
      visible);
    - the member functions, in source order;
    - [enforceWriteConcern] over an explicit world state with an event trace;
    - the theorems. *)

From Stdlib Require Import ZArith String List.
From stdpp Require Import base option list sorting strings gmap.

Local Open Scope Z_scope.
Local Open Scope string_scope.

(** ** Collaborators declared outside [client_info.{h,cpp}] *)

(** Everything below is used by the source file but declared elsewhere in the
    code base.  Only the operations that the source calls are listed. *)
Class Externals := {
  (** [HostAndPort] (util/net/hostandport.h): the members used are
      [hasPort()], [operator!=] and [toString()]. *)
  HostAndPort : Type;
  hasPort : HostAndPort → bool;
  hp_differs : HostAndPort → HostAndPort → bool;
  hp_toString : HostAndPort → string;
  (** a default-constructed [HostAndPort] *)
  hp_default : HostAndPort;
  (** [operator!=] never separates a value from itself *)
  hp_differs_irrefl : ∀ p, hp_differs p p = false;

  (** [AbstractMessagingPort]: only [remote()] is called. *)
  MessagingPort : Type;
  remote : MessagingPort → HostAndPort;

  (** the object built by [new AuthorizationSession(...)] in [create] *)
  AuthorizationSession : Type;
  newAuthorizationSession : AuthorizationSession;

  (** [OpTime]; [asDate()] gives the 64-bit timestamp value *)
  OpTime : Type;
  asDate : OpTime → Z;

  (** [ConnectionString], the key type of [HostOpTimeMap] *)
  ConnectionString : Type;
  cs_toString : ConnectionString → string;

  (** [BSONObj] and the members of [BSONObjBuilder] that [addOpTimeTo]
      calls *)
  BSONObj : Type;
  BSONObjBuilder : Type;
  builder_new : BSONObjBuilder;
  appendElements : BSONObjBuilder → BSONObj → BSONObjBuilder;
  appendTimestamp : BSONObjBuilder → string → Z → BSONObjBuilder;
  obj : BSONObjBuilder → BSONObj;
  bson_toString : BSONObj → string;

  (** [DBException] and its [toString()] *)
  DBException : Type;
  ex_toString : DBException → string;

  (** [causedBy(const std::string* )] (util/assert_util.h) *)
  causedBy : string → string;

  (** The shard side, reached through [ScopedDbConnection] (client/connpool.h).
      [Net] is the state of everything behind that interface: the pool and
      the shards.  Constructing a connection and running a command may throw
      a [DBException]; [done()] hands the connection back to the pool. *)
  Net : Type;
  ScopedDbConnection : Type;
  conn_new : string → Net → Net * (DBException + ScopedDbConnection);
  conn_runCommand :
    ScopedDbConnection → string → BSONObj → Net → Net * (DBException + (bool * BSONObj));
  conn_done : ScopedDbConnection → Net → Net;

  (** the global [Chunk::ShouldAutoSplit] *)
  ShouldAutoSplit : bool;
}.

(** ** Data model *)

Section ClientInfo.
Context `{Ext : Externals}.

(** [struct RequestInfo]: [set<string> shardHostsWritten] and
    [map<string, OpTime> hostOpTimes]. *)
Record RequestInfo := mkRequestInfo {
  shardHostsWritten : gset string;
  hostOpTimes : gmap string OpTime;
}.

(** [RequestInfo::clear()] empties both containers. *)
Definition RequestInfo_clear (r : RequestInfo) : RequestInfo :=
  mkRequestInfo ∅ ∅.

(** A default-constructed [RequestInfo]. *)
Definition RequestInfo_new : RequestInfo := mkRequestInfo ∅ ∅.

(** The two values a [RequestInfo*] member can take: [&_a] or [&_b]. *)
Inductive Slot := SlotA | SlotB.

#[global] Instance Slot_eq_dec : EqDecision Slot.
Proof. solve_decision. Defined.

(** [HostOpTimeMap]: the entries in iteration order. *)
Definition HostOpTimeMap : Type := list (ConnectionString * OpTime).

(** [class ClientInfo : public ClientBasic].  [_id] is declared but neither
    written nor read in the source and is left out.  [_lastAccess] is not
    initialised by the constructor: [None] stands for that. *)
Record ClientInfo := mkClientInfo {
  (* ClientBasic *)
  _messagingPort : option MessagingPort;
  _authorizationSession : option AuthorizationSession;
  (* ClientInfo *)
  _remote : HostAndPort;
  _a : RequestInfo;
  _b : RequestInfo;
  _cur : Slot;
  _prev : Slot;
  _sinceLastGetError : gset string;
  _lastAccess : option Z;
  _autoSplitOk : bool;
}.

(** Dereferencing a [RequestInfo*] inside a given object. *)
Definition deref (s : ClientInfo) (p : Slot) : RequestInfo :=
  match p with SlotA => _a s | SlotB => _b s end.

(** Writing through a [RequestInfo*]. *)
Definition store (s : ClientInfo) (p : Slot) (r : RequestInfo) : ClientInfo :=
  match p with
  | SlotA => mkClientInfo (_messagingPort s) (_authorizationSession s) (_remote s)
               r (_b s) (_cur s) (_prev s) (_sinceLastGetError s)
               (_lastAccess s) (_autoSplitOk s)
  | SlotB => mkClientInfo (_messagingPort s) (_authorizationSession s) (_remote s)
               (_a s) r (_cur s) (_prev s) (_sinceLastGetError s)
               (_lastAccess s) (_autoSplitOk s)
  end.

Definition set_cur_prev (s : ClientInfo) (c p : Slot) : ClientInfo :=
  mkClientInfo (_messagingPort s) (_authorizationSession s) (_remote s)
    (_a s) (_b s) c p (_sinceLastGetError s) (_lastAccess s) (_autoSplitOk s).

Definition set_remote (s : ClientInfo) (r : HostAndPort) : ClientInfo :=
  mkClientInfo (_messagingPort s) (_authorizationSession s) r
    (_a s) (_b s) (_cur s) (_prev s) (_sinceLastGetError s)
    (_lastAccess s) (_autoSplitOk s).

Definition set_sinceLastGetError (s : ClientInfo) (x : gset string) : ClientInfo :=
  mkClientInfo (_messagingPort s) (_authorizationSession s) (_remote s)
    (_a s) (_b s) (_cur s) (_prev s) x (_lastAccess s) (_autoSplitOk s).

Definition set_lastAccess (s : ClientInfo) (t : Z) : ClientInfo :=
  mkClientInfo (_messagingPort s) (_authorizationSession s) (_remote s)
    (_a s) (_b s) (_cur s) (_prev s) (_sinceLastGetError s)
    (Some t) (_autoSplitOk s).

Definition set_autoSplitOk (s : ClientInfo) (b : bool) : ClientInfo :=
  mkClientInfo (_messagingPort s) (_authorizationSession s) (_remote s)
    (_a s) (_b s) (_cur s) (_prev s) (_sinceLastGetError s)
    (_lastAccess s) b.

Definition set_authorizationSession (s : ClientInfo) (a : AuthorizationSession)
  : ClientInfo :=
  mkClientInfo (_messagingPort s) (Some a) (_remote s)
    (_a s) (_b s) (_cur s) (_prev s) (_sinceLastGetError s)
    (_lastAccess s) (_autoSplitOk s).

(** The buffers the two roles currently designate. *)
Definition curInfo (s : ClientInfo) : RequestInfo := deref s (_cur s).
Definition prevInfo (s : ClientInfo) : RequestInfo := deref s (_prev s).

(** [(int) x] for a 64-bit [time_t]: two's complement truncation to 32 bits. *)
Definition to_int (x : Z) : Z := (x + 2 ^ 31) mod 2 ^ 32 - 2 ^ 31.

(** How a member function can end other than by returning: by
    [throw UserException(code, msg)] or by a failed [massert]. *)
Inductive Failure :=
  | UserException (code : Z) (msg : string)
  | MassertFailed (msgid : Z) (msg : string).

(** Modelled from the spec: the [massert] macro is not defined in the source
    files.  The specification calls its failure a hard assertion, fatal and
    not an error to recover from, as opposed to a thrown error; a failed
    [massert] is therefore an outcome of its own kind, and nothing after it
    runs. *)
Definition massert (msgid : Z) (msg : string) (expr : bool) : option Failure :=
  if expr then None else Some (MassertFailed msgid msg).

(** ** Member functions *)

(** [ClientInfo::ClientInfo(AbstractMessagingPort* messagingPort)] *)
Definition ClientInfo_new (messagingPort : option MessagingPort) : ClientInfo :=
  mkClientInfo messagingPort None
    (match messagingPort with
     | Some mp => remote mp
     | None => hp_default
     end)
    RequestInfo_new RequestInfo_new SlotA SlotB ∅ None true.

(** [void ClientInfo::addShardHost(const string& shardHost)] *)
Definition addShardHost (shardHost : string) (s : ClientInfo) : ClientInfo :=
  let c := deref s (_cur s) in
  let s1 := store s (_cur s)
              (mkRequestInfo ({[ shardHost ]} ∪ shardHostsWritten c) (hostOpTimes c)) in
  set_sinceLastGetError s1 ({[ shardHost ]} ∪ _sinceLastGetError s1).

(** One iteration of the loop of [addHostOpTimes]:
    [_cur->hostOpTimes[it->first.toString()] = it->second]. *)
Definition addHostOpTime (s : ClientInfo) (e : ConnectionString * OpTime)
  : ClientInfo :=
  let c := deref s (_cur s) in
  store s (_cur s)
    (mkRequestInfo (shardHostsWritten c)
       (<[ cs_toString e.1 := e.2 ]> (hostOpTimes c))).

(** [void ClientInfo::addHostOpTimes(const HostOpTimeMap& hostOpTimes)] *)
Definition addHostOpTimes (m : HostOpTimeMap) (s : ClientInfo) : ClientInfo :=
  foldl addHostOpTime s m.

(** [void ClientInfo::newRequest()]; [now] is the value of [time(0)]. *)
Definition newRequest (now : Z) (s : ClientInfo) : ClientInfo :=
  let s1 := set_lastAccess s (to_int now) in
  let temp := _cur s1 in
  let s2 := set_cur_prev s1 (_prev s1) temp in
  store s2 (_cur s2) (RequestInfo_clear (deref s2 (_cur s2))).

(** [void ClientInfo::newPeerRequest(const HostAndPort& peer)]: the object
    as the call leaves it, and whether the call returned or threw. *)
Definition newPeerRequest (now : Z) (peer : HostAndPort) (s : ClientInfo)
  : ClientInfo * (Failure + unit) :=
  if negb (hasPort (_remote s)) then
    (newRequest now (set_remote s peer), inr tt)
  else if hp_differs (_remote s) peer then
    (s, inl (UserException 13134
               ("remotes don't match old [" ++ hp_toString (_remote s)
                  ++ "] new [" ++ hp_toString peer ++ "]")))
  else
    (newRequest now s, inr tt).

(** [void ClientInfo::disconnect()] *)
Definition disconnect (s : ClientInfo) : ClientInfo :=
  mkClientInfo (_messagingPort s) (_authorizationSession s) (_remote s)
    (_a s) (_b s) (_cur s) (_prev s) (_sinceLastGetError s)
    (Some 0) (_autoSplitOk s).

(** [void ClientInfo::disableForCommand()] *)
Definition disableForCommand (s : ClientInfo) : ClientInfo :=
  let temp := _cur s in
  set_cur_prev s (_prev s) temp.

(** Inline members of the header. *)
Definition getRemote (s : ClientInfo) : HostAndPort := _remote s.
Definition getPrevShardHosts (s : ClientInfo) : gset string :=
  shardHostsWritten (deref s (_prev s)).
Definition getPrevHostOpTimes (s : ClientInfo) : gmap string OpTime :=
  hostOpTimes (deref s (_prev s)).
Definition sinceLastGetError (s : ClientInfo) : gset string :=
  _sinceLastGetError s.
Definition clearSinceLastGetError (s : ClientInfo) : ClientInfo :=
  set_sinceLastGetError s ∅.
Definition clearRequestInfo (s : ClientInfo) : ClientInfo :=
  store s (_cur s) (RequestInfo_clear (deref s (_cur s))).
Definition autoSplitOk (s : ClientInfo) : bool :=
  _autoSplitOk s && ShouldAutoSplit.
Definition noAutoSplit (s : ClientInfo) : ClientInfo :=
  set_autoSplitOk s false.

(** ** The thread-local registry [_tlInfo] *)

(** [boost::thread_specific_ptr<ClientInfo> _tlInfo]: empty or owning one
    object. *)
Definition TlInfo : Type := option ClientInfo.

(** [ClientInfo* ClientInfo::create(AbstractMessagingPort* messagingPort)]:
    the content of [_tlInfo] as the call leaves it, and either the exception
    of the failed [massert] or the returned pointer, given as the object it
    designates (the one now held by [_tlInfo]). *)
Definition create (now : Z) (messagingPort : option MessagingPort) (tl : TlInfo)
  : TlInfo * (Failure + ClientInfo) :=
  let info := tl in
  match massert 16472 "A ClientInfo already exists for this thread"
          (negb (bool_decide (is_Some info))) with
  | Some failed => (tl, inl failed)
  | None =>
      let info := ClientInfo_new messagingPort in
      let info := set_authorizationSession info newAuthorizationSession in
      let info := newRequest now info in
      (Some info, inr info)
  end.

(** [bool ClientInfo::exists()] *)
Definition exists_ (tl : TlInfo) : bool :=
  match tl with Some _ => true | None => false end.

(** ** Write-concern enforcement *)

(** [static BSONObj addOpTimeTo(const BSONObj& options, const OpTime& opTime)] *)
Definition addOpTimeTo (options : BSONObj) (opTime : OpTime) : BSONObj :=
  let builder := builder_new in
  let builder := appendElements builder options in
  let builder := appendTimestamp builder "wOpTime" (asDate opTime) in
  obj builder.

(** Iteration over a [std::map<string, OpTime>]: the entries by ascending
    key, [std::string]'s order being the bytewise lexicographic one. *)
Definition key_le (x y : string * OpTime) : Prop := String.le x.1 y.1.

#[global] Instance key_le_dec : RelDecision key_le.
Proof. intros x y. unfold key_le. apply _. Defined.

Definition map_entries (m : gmap string OpTime) : list (string * OpTime) :=
  merge_sort key_le (map_to_list m).

(** What the function does to its surroundings, in program order. *)
Inductive Event :=
  | EvLog (options : BSONObj) (shardHost : string)
  | EvConnect (shardHost : string)
  | EvRunCommand (shardHost dbName : string) (cmd : BSONObj)
  | EvDone (shardHost : string)
  | EvWarning (msg : string).

(** The state [enforceWriteConcern] runs in: the object it is called on, the
    string behind [errMsg], the shard side with the trace of what was done
    to it, and the locals that live across the [try] block. *)
Record State := mkState {
  st_this : ClientInfo;
  st_errMsg : string;
  st_net : Net;
  st_trace : list Event;
  st_ok : bool;
  st_connPtr : option ScopedDbConnection;
}.

(** Computations that update the state and either return or throw. *)
Definition M (A : Type) : Type := State → State * (DBException + A).

#[global] Instance M_ret : MRet M := λ A a st, (st, inr a).

#[global] Instance M_bind : MBind M := λ A B k m st,
  match m st with
  | (st', inr a) => k a st'
  | (st', inl ex) => (st', inl ex)
  end.

(** [try { body } catch (const DBException& ex) { handler }] *)
Definition try_catch {A} (body : M A) (handler : DBException → M A) : M A :=
  λ st, match body st with
        | (st', inl ex) => handler ex st'
        | r => r
        end.

Definition emit (e : Event) : M unit :=
  λ st, (mkState (st_this st) (st_errMsg st) (st_net st) (st_trace st ++ [e])
           (st_ok st) (st_connPtr st), inr tt).

Definition set_errMsg (msg : string) : M unit :=
  λ st, (mkState (st_this st) msg (st_net st) (st_trace st)
           (st_ok st) (st_connPtr st), inr tt).

Definition set_ok (b : bool) : M unit :=
  λ st, (mkState (st_this st) (st_errMsg st) (st_net st) (st_trace st)
           b (st_connPtr st), inr tt).

Definition set_connPtr (c : option ScopedDbConnection) : M unit :=
  λ st, (mkState (st_this st) (st_errMsg st) (st_net st) (st_trace st)
           (st_ok st) c, inr tt).

Definition set_net (n : Net) (st : State) : State :=
  mkState (st_this st) (st_errMsg st) n (st_trace st) (st_ok st) (st_connPtr st).

Definition get_errMsg : M string := λ st, (st, inr (st_errMsg st)).
Definition get_ok : M bool := λ st, (st, inr (st_ok st)).
Definition get_connPtr : M (option ScopedDbConnection) :=
  λ st, (st, inr (st_connPtr st)).
Definition get_this : M ClientInfo := λ st, (st, inr (st_this st)).

(** A call into the shard side: it changes [Net] and returns or throws. *)
Definition ext_call {A} (f : Net → Net * (DBException + A)) : M A :=
  λ st, let '(n, r) := f (st_net st) in (set_net n st, r).

(** [new ScopedDbConnection(shardHost)] *)
Definition new_ScopedDbConnection (shardHost : string) : M ScopedDbConnection :=
  emit (EvConnect shardHost) ;;
  ext_call (conn_new shardHost).

(** [conn->runCommand(dbName, cmd, result)]; the value is the returned flag
    together with the [result] document. *)
Definition runCommand (shardHost : string) (conn : ScopedDbConnection)
    (dbName : string) (cmd : BSONObj) : M (bool * BSONObj) :=
  emit (EvRunCommand shardHost dbName cmd) ;;
  ext_call (conn_runCommand conn dbName cmd).

(** [conn.done()] *)
Definition done_ (shardHost : string) (conn : ScopedDbConnection) : M unit :=
  emit (EvDone shardHost) ;;
  ext_call (λ n, (conn_done conn n, inr tt)).

(** The body of the [for] loop for one entry; the value is [ok]. *)
Definition enforceOne (dbName : string) (options : BSONObj)
    (shardHost : string) (opTime : OpTime) : M bool :=
  emit (EvLog options shardHost) ;;
  let optionsWithOpTime := addOpTimeTo options opTime in
  set_ok false ;;
  set_connPtr None ;;
  try_catch
    (conn ← new_ScopedDbConnection shardHost;
     set_connPtr (Some conn) ;;
     r ← runCommand shardHost conn dbName optionsWithOpTime;
     set_ok r.1 ;;
     (if negb r.1 then set_errMsg (bson_toString r.2) else mret tt) ;;
     done_ shardHost conn)
    (λ ex,
       set_errMsg (ex_toString ex) ;;
       connPtr ← get_connPtr;
       match connPtr with
       | Some c => done_ shardHost c
       | None => mret tt
       end) ;;
  get_ok.

(** The [for] loop, leaving with [false] at the first entry that fails. *)
Fixpoint enforceLoop (dbName : string) (options : BSONObj)
    (its : list (string * OpTime)) : M bool :=
  match its with
  | [] => mret true
  | it :: rest =>
      let shardHost := it.1 in
      let opTime := it.2 in
      ok ← enforceOne dbName options shardHost opTime;
      if negb ok then
        errMsg ← get_errMsg;
        set_errMsg ("could not enforce write concern on " ++ shardHost
                      ++ causedBy errMsg) ;;
        errMsg ← get_errMsg;
        emit (EvWarning errMsg) ;;
        mret false
      else
        enforceLoop dbName options rest
  end.

(** [bool ClientInfo::enforceWriteConcern(const string& dbName,
                                          const BSONObj& options,
                                          string* errMsg)] *)
Definition enforceWriteConcern (dbName : string) (options : BSONObj) : M bool :=
  this ← get_this;
  let hostOpTimes := getPrevHostOpTimes this in
  if decide (hostOpTimes = ∅) then
    mret true
  else
    enforceLoop dbName options (map_entries hostOpTimes).

(** A call from outside: the caller supplies the object, the string behind
    [errMsg] and the shard side; the locals start out arbitrary and are
    forgotten at the end. *)
Record Outcome := mkOutcome {
  out_result : DBException + bool;
  out_errMsg : string;
  out_this : ClientInfo;
  out_net : Net;
  out_trace : list Event;
}.

Definition call_enforceWriteConcern (dbName : string) (options : BSONObj)
    (errMsg : string) (this : ClientInfo) (net : Net) : Outcome :=
  let '(st, r) := enforceWriteConcern dbName options
                    (mkState this errMsg net [] false None) in
  mkOutcome r (st_errMsg st) (st_this st) (st_net st) (st_trace st).

(** The shards a trace shows a connection attempt to, in order. *)
Definition contacted (tr : list Event) : list string :=
  omap (λ e, match e with EvConnect h => Some h | _ => None end) tr.

(** The shards a trace shows a command sent to, in order. *)
Definition commanded (tr : list Event) : list string :=
  omap (λ e, match e with EvRunCommand h _ _ => Some h | _ => None end) tr.

(** ** Vocabulary of the statements *)

(** The two recording calls made while a request is in flight. *)
Inductive RecordCall :=
  | RecShardHost (shardHost : string)
  | RecHostOpTimes (m : HostOpTimeMap).

Definition record (s : ClientInfo) (c : RecordCall) : ClientInfo :=
  match c with
  | RecShardHost h => addShardHost h s
  | RecHostOpTimes m => addHostOpTimes m s
  end.

(** What a sequence of recording calls adds to an empty buffer. *)
Definition assign (m : gmap string OpTime) (e : ConnectionString * OpTime)
  : gmap string OpTime := <[ cs_toString e.1 := e.2 ]> m.

Definition recorded (acc : RequestInfo) (c : RecordCall) : RequestInfo :=
  match c with
  | RecShardHost h => mkRequestInfo ({[ h ]} ∪ shardHostsWritten acc) (hostOpTimes acc)
  | RecHostOpTimes m => mkRequestInfo (shardHostsWritten acc) (foldl assign (hostOpTimes acc) m)
  end.

(** The shard hosts named by the [addShardHost] calls of a sequence. *)
Definition writtenHosts (cs : list RecordCall) : gset string :=
  list_to_set (omap (λ c, match c with
                          | RecShardHost h => Some h
                          | RecHostOpTimes _ => None
                          end) cs).

(** The position given by the last entry of [m] whose key prints as [host]. *)
Fixpoint find_last (host : string) (m : HostOpTimeMap) : option OpTime :=
  match m with
  | [] => None
  | e :: rest =>
      match find_last host rest with
      | Some t => Some t
      | None => if decide (cs_toString e.1 = host) then Some e.2 else None
      end
  end.

(** Every public operation on a [ClientInfo] after its construction. *)
Inductive Op :=
  | OpNewRequest (now : Z)
  | OpNewPeerRequest (now : Z) (peer : HostAndPort)
  | OpDisableForCommand
  | OpAddShardHost (shardHost : string)
  | OpAddHostOpTimes (m : HostOpTimeMap)
  | OpClearRequestInfo
  | OpClearSinceLastGetError
  | OpNoAutoSplit
  | OpDisconnect
  | OpEnforceWriteConcern (dbName : string) (options : BSONObj)
      (errMsg : string) (net : Net).

Definition perform (s : ClientInfo) (o : Op) : ClientInfo :=
  match o with
  | OpNewRequest now => newRequest now s
  | OpNewPeerRequest now peer => (newPeerRequest now peer s).1
  | OpDisableForCommand => disableForCommand s
  | OpAddShardHost h => addShardHost h s
  | OpAddHostOpTimes m => addHostOpTimes m s
  | OpClearRequestInfo => clearRequestInfo s
  | OpClearSinceLastGetError => clearSinceLastGetError s
  | OpNoAutoSplit => noAutoSplit s
  | OpDisconnect => disconnect s
  | OpEnforceWriteConcern db options errMsg net =>
      out_this (call_enforceWriteConcern db options errMsg s net)
  end.

(** How the shard side answers one confirmation, told from the collaborator
    interface alone: the connection cannot be made, the command throws, the
    command returns false with a document, or it returns true. *)
Inductive Reply :=
  | ConnectThrew (ex : DBException)
  | CommandThrew (ex : DBException)
  | Refused (result : BSONObj)
  | Confirmed.

Definition shardReply (shardHost dbName : string) (cmd : BSONObj) (net : Net)
  : Net * Reply :=
  match conn_new shardHost net with
  | (n1, inl ex) => (n1, ConnectThrew ex)
  | (n1, inr conn) =>
      match conn_runCommand conn dbName cmd n1 with
      | (n2, inl ex) => (conn_done conn n2, CommandThrew ex)
      | (n2, inr (false, result)) => (conn_done conn n2, Refused result)
      | (n2, inr (true, _)) => (conn_done conn n2, Confirmed)
      end
  end.

Definition replyEvents (shardHost dbName : string) (cmd : BSONObj) (r : Reply)
  : list Event :=
  match r with
  | ConnectThrew _ => [EvConnect shardHost]
  | _ => [EvConnect shardHost; EvRunCommand shardHost dbName cmd; EvDone shardHost]
  end.

Definition confirmed (r : Reply) : bool :=
  match r with Confirmed => true | _ => false end.

(** The underlying cause a failed reply carries; [None] for a success. *)
Definition cause (r : Reply) : option string :=
  match r with
  | ConnectThrew ex | CommandThrew ex => Some (ex_toString ex)
  | Refused result => Some (bson_toString result)
  | Confirmed => None
  end.

(** The shard an event concerns, if any. *)
Definition event_host (e : Event) : option string :=
  match e with
  | EvLog _ h | EvConnect h | EvRunCommand h _ _ | EvDone h => Some h
  | EvWarning _ => None
  end.

(** What asking the shards of [its] in turn amounts to, told from their
    replies: the returned flag, the string behind [errMsg], the shard side
    and the events.  [enforceLoop] is shown below to compute exactly this. *)
Record Run := mkRun {
  run_ok : bool;
  run_errMsg : string;
  run_net : Net;
  run_events : list Event;
}.

Fixpoint askInTurn (dbName : string) (options : BSONObj)
    (its : list (string * OpTime)) (errMsg : string) (net : Net) : Run :=
  match its with
  | [] => mkRun true errMsg net []
  | it :: rest =>
      let cmd := addOpTimeTo options it.2 in
      let r := shardReply it.1 dbName cmd net in
      let evs := EvLog options it.1 :: replyEvents it.1 dbName cmd r.2 in
      match cause r.2 with
      | Some c =>
          let msg := "could not enforce write concern on " ++ it.1 ++ causedBy c in
          mkRun false msg r.1 (evs ++ [EvWarning msg])
      | None =>
          let o := askInTurn dbName options rest errMsg r.1 in
          mkRun (run_ok o) (run_errMsg o) (run_net o) (evs ++ run_events o)
      end
  end.

(** The shards of [its] all confirm when asked in turn, taking the shard side
    from [n] to [n']. *)
Inductive AllConfirm (dbName : string) (options : BSONObj)
  : list (string * OpTime) → Net → Net → Prop :=
  | AllConfirm_nil n : AllConfirm dbName options [] n n
  | AllConfirm_cons h t rest n n1 n2 :
      shardReply h dbName (addOpTimeTo options t) n = (n1, Confirmed) →
      AllConfirm dbName options rest n1 n2 →
      AllConfirm dbName options ((h, t) :: rest) n n2.

End ClientInfo.

(** ** The rest of the class *)

(** The members of [client_info.{h,cpp}] not needed so far.  [get] compares
    two [AbstractMessagingPort*] values, so pointer equality on ports is
    assumed decidable here. *)
Section Registry.
Context `{Ext : Externals} {port_eq_dec : EqDecision MessagingPort}.

(** [bool hasRemote() const { return true; }] *)
Definition hasRemote (s : ClientInfo) : bool := true.

(** [ClientBasic::port()]: the pointer handed to the constructor. *)
Definition port (s : ClientInfo) : option MessagingPort := _messagingPort s.

(** The message of the second [massert] of [get]. *)
Definition get_mismatch_msg (info : ClientInfo) : string :=
  "AbstractMessagingPort was provided to ClientInfo::get"
  ++ " but differs from the one stored in the current ClientInfo object. "
  ++ "Current ClientInfo messaging port "
  ++ (if bool_decide (is_Some (port info)) then "is not" else "is")
  ++ " NULL".

(** [ClientInfo * ClientInfo::get(AbstractMessagingPort* messagingPort)]:
    as for [create], the content of [_tlInfo] as the call leaves it, and the
    failed assertion or the object the returned pointer designates. *)
Definition get (now : Z) (messagingPort : option MessagingPort) (tl : TlInfo)
  : TlInfo * (Failure + ClientInfo) :=
  let info := tl in
  let looked_up :=
    match info with
    | None => create now messagingPort tl
    | Some i => (tl, inr i)
    end in
  match looked_up with
  | (tl', inl failed) => (tl', inl failed)
  | (tl', inr info) =>
      match massert 16483 (get_mismatch_msg info)
              (bool_decide (messagingPort = None)
               || bool_decide (messagingPort = port info)) with
      | Some failed => (tl', inl failed)
      | None => (tl', inr info)
      end
  end.

(** [bool ClientBasic::hasCurrent()] *)
Definition hasCurrent (tl : TlInfo) : bool := exists_ tl.

(** [ClientBasic* ClientBasic::getCurrent()]: [ClientInfo::get()] with its
    default argument, a null port. *)
Definition getCurrent (now : Z) (tl : TlInfo) : TlInfo * (Failure + ClientInfo) :=
  get now None tl.

(** The shards a trace shows a connection handed back for, in order. *)
Definition released (tr : list Event) : list string :=
  omap (λ e, match e with EvDone h => Some h | _ => None end) tr.

(** The warnings a trace shows, in order. *)
Definition warnings (tr : list Event) : list string :=
  omap (λ e, match e with EvWarning msg => Some msg | _ => None end) tr.

(** What a sequence of operations does to the since-last-getLastError set,
    told from the operations alone: [addShardHost] adds, the clearing call
    empties, nothing else matters. *)
Definition since_step (acc : gset string) (o : Op) : gset string :=
  match o with
  | OpAddShardHost h => {[ h ]} ∪ acc
  | OpClearSinceLastGetError => ∅
  | _ => acc
  end.

(** The keys a [HostOpTimeMap] prints as. *)
Definition printed_keys (m : HostOpTimeMap) : gset string :=
  list_to_set ((λ e, cs_toString e.1) <$> m).

End Registry.

(** ** A simulated deployment *)

(** A concrete choice of the collaborators, used to run the definitions on
    examples: hosts are names, positions are integers, documents are field
    lists, and the shard side is a table saying how each host behaves plus a
    count of the connections handed back. *)
Module Sim.

Inductive Behaviour := Healthy | Refuses | Unreachable | Breaks.

Definition SimNet : Type := list (string * Behaviour) * nat.

Definition behaviour (n : SimNet) (h : string) : Behaviour :=
  match list_find (λ e, bool_decide (e.1 = h)) n.1 with
  | Some (_, (_, b)) => b
  | None => Healthy
  end.

Definition sim_differs (a b : string * Z) : bool :=
  negb (String.eqb a.1 b.1 && Z.eqb a.2 b.2).

Lemma sim_differs_irrefl (p : string * Z) : sim_differs p p = false.
Proof.
  unfold sim_differs. by rewrite String.eqb_refl, Z.eqb_refl.
Qed.

Definition sim_causedBy (e : string) : string :=
  match e with
  | EmptyString => EmptyString
  | _ => " :: caused by :: " ++ e
  end.

Definition sim_runCommand (conn dbName : string) (cmd : list (string * Z))
    (n : SimNet) : SimNet * (string + (bool * list (string * Z))) :=
  match behaviour n conn with
  | Healthy => (n, inr (true, [("ok", 1)]))
  | Refuses => (n, inr (false, [("ok", 0)]))
  | _ => (n, inl "socket exception")
  end.

#[global] Instance sim : Externals := {|
  HostAndPort := string * Z;
  hasPort p := (0 <=? p.2)%Z;
  hp_differs := sim_differs;
  hp_toString p := p.1;
  hp_default := (EmptyString, -1);
  hp_differs_irrefl := sim_differs_irrefl;
  MessagingPort := string * Z;
  remote p := p;
  AuthorizationSession := unit;
  newAuthorizationSession := tt;
  OpTime := Z;
  asDate t := t;
  ConnectionString := string;
  cs_toString c := c;
  BSONObj := list (string * Z);
  BSONObjBuilder := list (string * Z);
  builder_new := [];
  appendElements b o := (b ++ o)%list;
  appendTimestamp b name d := (b ++ [(name, d)])%list;
  obj b := b;
  bson_toString o := String.concat "," (map fst o);
  DBException := string;
  ex_toString e := e;
  causedBy := sim_causedBy;
  Net := SimNet;
  ScopedDbConnection := string;
  conn_new h n :=
    match behaviour n h with
    | Unreachable => (n, inl "couldn't connect to server")
    | _ => (n, inr h)
    end;
  conn_runCommand := sim_runCommand;
  conn_done _ n := (n.1, S n.2);
  ShouldAutoSplit := true;
|}.

(** A session whose previous request wrote to A, B and C. *)
Definition abc : ClientInfo :=
  newRequest 1700000001
    (addHostOpTimes [("A", 30); ("C", 10); ("B", 20)]
       (addShardHost "D" (newRequest 1700000000 (ClientInfo_new None)))).

Definition b_refuses : Net := ([("B", Refuses)], 0%nat).

(** A session at its first request boundary. *)
Definition fresh : ClientInfo := newRequest 1700000000 (ClientInfo_new None).

(** The recording calls of one request. *)
Definition calls : list RecordCall :=
  [RecShardHost "A"; RecHostOpTimes [("A", 30)]; RecShardHost "B"].

(** Two position maps that both mention A, the later position being the
    smaller one. *)
Definition first_map : HostOpTimeMap := [("A", 30); ("B", 7)].
Definition second_map : HostOpTimeMap := [("A", 10)].

(** The requested write concern, and what B answers to it. *)
Definition w2 : BSONObj := [("w", 2)].
Definition not_ok : BSONObj := [("ok", 0)].

(** The entries of [abc] before and after B. *)
Definition before_b : list (string * OpTime) := [("A", 30)].
Definition after_b : list (string * OpTime) := [("C", 10)].

Definition peer1 : HostAndPort := ("10.0.0.7", 51234).
Definition peer2 : HostAndPort := ("10.0.0.8", 51234).

(** A messaging port, and the object [create] builds for it at time
    1700000000; the object it builds when given no port. *)
Definition port1 : MessagingPort := ("10.0.0.7", 51234).
Definition registered : ClientInfo :=
  newRequest 1700000000
    (set_authorizationSession (ClientInfo_new (Some port1)) newAuthorizationSession).
Definition created : ClientInfo :=
  newRequest 1700000000
    (set_authorizationSession (ClientInfo_new None) newAuthorizationSession).

(** A session whose remote is [peer1], and a run of operations on it. *)
Definition with_remote : ClientInfo :=
  (newPeerRequest 1700000000 peer1 (ClientInfo_new None)).1.
Definition ops : list Op :=
  [OpAddShardHost "A"; OpNewPeerRequest 1700000001 peer2;
   OpNewRequest 1700000002; OpDisableForCommand; OpDisconnect].

(** The command B is sent for [abc] under [w2]. *)
Definition cmd_b : BSONObj := [("w", 2); ("wOpTime", 20)].

(** A peer whose [HostAndPort] has no port, and a peer unlike it. *)
Definition portless : HostAndPort := ("h1", -1).
Definition other : HostAndPort := ("h2", 7).

End Sim.

(** ** Properties *)

Section Properties.
Context `{Ext : Externals}.
Local Open Scope list_scope.

(** *** Pointers and buffers *)

Lemma deref_store_eq (s : ClientInfo) (p : Slot) (r : RequestInfo) :
  deref (store s p r) p = r.
Proof. by destruct p. Qed.

Lemma deref_store_ne (s : ClientInfo) (p q : Slot) (r : RequestInfo) :
  p ≠ q → deref (store s p r) q = deref s q.
Proof. by destruct p, q. Qed.

Lemma store_cur (s : ClientInfo) (p : Slot) (r : RequestInfo) :
  _cur (store s p r) = _cur s.
Proof. by destruct p. Qed.

Lemma store_prev (s : ClientInfo) (p : Slot) (r : RequestInfo) :
  _prev (store s p r) = _prev s.
Proof. by destruct p. Qed.

Lemma store_remote (s : ClientInfo) (p : Slot) (r : RequestInfo) :
  _remote (store s p r) = _remote s.
Proof. by destruct p. Qed.

Lemma store_sinceLastGetError (s : ClientInfo) (p : Slot) (r : RequestInfo) :
  _sinceLastGetError (store s p r) = _sinceLastGetError s.
Proof. by destruct p. Qed.

Lemma store_autoSplitOk (s : ClientInfo) (p : Slot) (r : RequestInfo) :
  _autoSplitOk (store s p r) = _autoSplitOk s.
Proof. by destruct p. Qed.

Create Rewrite HintDb client_info.
#[local] Hint Rewrite deref_store_eq store_cur store_prev store_remote
  store_sinceLastGetError store_autoSplitOk : client_info.

Ltac unfold_ops :=
  unfold curInfo, prevInfo, newRequest, disableForCommand, addShardHost,
    addHostOpTime, clearRequestInfo, clearSinceLastGetError, noAutoSplit,
    disconnect, set_cur_prev, set_lastAccess, set_sinceLastGetError,
    set_remote, set_autoSplitOk, RequestInfo_clear in *.

(** Case analysis on an object: its fields, and where its two pointers
    point. *)
Ltac open_client s :=
  unfold_ops;
  destruct s as [mp au rm a b [] [] sl la aso]; simpl in *.

(** *** Recording into the current buffer *)

Lemma addShardHost_pointers (h : string) (s : ClientInfo) :
  _cur (addShardHost h s) = _cur s ∧ _prev (addShardHost h s) = _prev s.
Proof. unfold_ops; simpl. by autorewrite with client_info. Qed.

Lemma addShardHost_cur (h : string) (s : ClientInfo) :
  curInfo (addShardHost h s) = recorded (curInfo s) (RecShardHost h).
Proof. by open_client s. Qed.

Lemma addShardHost_other (h : string) (s : ClientInfo) (q : Slot) :
  _cur s ≠ q → deref (addShardHost h s) q = deref s q.
Proof. open_client s; by destruct q. Qed.

Lemma addHostOpTime_pointers (s : ClientInfo) (e : ConnectionString * OpTime) :
  _cur (addHostOpTime s e) = _cur s ∧ _prev (addHostOpTime s e) = _prev s.
Proof. unfold_ops. by autorewrite with client_info. Qed.

Lemma addHostOpTimes_pointers (m : HostOpTimeMap) (s : ClientInfo) :
  _cur (addHostOpTimes m s) = _cur s ∧ _prev (addHostOpTimes m s) = _prev s.
Proof.
  unfold addHostOpTimes. revert s.
  induction m as [|e m IH]; intros s; simpl; [done|].
  destruct (IH (addHostOpTime s e)) as [-> ->].
  apply addHostOpTime_pointers.
Qed.

Lemma addHostOpTimes_cur (m : HostOpTimeMap) (s : ClientInfo) :
  curInfo (addHostOpTimes m s) = recorded (curInfo s) (RecHostOpTimes m).
Proof.
  unfold addHostOpTimes, curInfo. revert s.
  induction m as [|e m IH]; intros s; simpl.
  - by destruct (deref s (_cur s)).
  - rewrite IH. unfold addHostOpTime.
    by rewrite store_cur, deref_store_eq.
Qed.

Lemma addHostOpTimes_other (m : HostOpTimeMap) (s : ClientInfo) (q : Slot) :
  _cur s ≠ q → deref (addHostOpTimes m s) q = deref s q.
Proof.
  unfold addHostOpTimes. revert s.
  induction m as [|e m IH]; intros s Hq; simpl; [done|].
  rewrite IH.
  - unfold addHostOpTime. by apply deref_store_ne.
  - by rewrite (proj1 (addHostOpTime_pointers s e)).
Qed.

Lemma record_pointers (s : ClientInfo) (c : RecordCall) :
  _cur (record s c) = _cur s ∧ _prev (record s c) = _prev s.
Proof.
  destruct c; [apply addShardHost_pointers | apply addHostOpTimes_pointers].
Qed.

Lemma record_cur (s : ClientInfo) (c : RecordCall) :
  curInfo (record s c) = recorded (curInfo s) c.
Proof. destruct c; [apply addShardHost_cur | apply addHostOpTimes_cur]. Qed.

Lemma records_pointers (cs : list RecordCall) (s : ClientInfo) :
  _cur (foldl record s cs) = _cur s ∧ _prev (foldl record s cs) = _prev s.
Proof.
  revert s. induction cs as [|c cs IH]; intros s; simpl; [done|].
  destruct (IH (record s c)) as [-> ->]. apply record_pointers.
Qed.

Lemma records_cur (cs : list RecordCall) (s : ClientInfo) :
  curInfo (foldl record s cs) = foldl recorded (curInfo s) cs.
Proof.
  revert s. induction cs as [|c cs IH]; intros s; simpl; [done|].
  by rewrite IH, record_cur.
Qed.

Lemma recorded_shards (cs : list RecordCall) (acc : RequestInfo) :
  shardHostsWritten (foldl recorded acc cs)
  = shardHostsWritten acc ∪ writtenHosts cs.
Proof.
  unfold writtenHosts. revert acc.
  induction cs as [|c cs IH]; intros acc; simpl.
  - by rewrite (right_id_L ∅ (∪)).
  - rewrite IH. destruct c as [h|m]; simpl; [|done].
    by rewrite (comm_L (∪) {[h]}), <- (assoc_L (∪)).
Qed.

(** *** The request boundary *)

Lemma newRequest_pointers (now : Z) (s : ClientInfo) :
  _cur (newRequest now s) = _prev s ∧ _prev (newRequest now s) = _cur s.
Proof. unfold_ops; simpl. by autorewrite with client_info. Qed.

Lemma newRequest_cur (now : Z) (s : ClientInfo) :
  curInfo (newRequest now s) = mkRequestInfo ∅ ∅.
Proof. by open_client s. Qed.

Lemma newRequest_prev (now : Z) (s : ClientInfo) :
  _cur s ≠ _prev s → prevInfo (newRequest now s) = curInfo s.
Proof. by open_client s. Qed.

(** C1. After any recording calls, [newRequest] makes the previous role
    designate the very buffer that was current (the pointers are exchanged),
    with the content accumulated there, shard set and position map alike,
    and leaves the new current buffer empty. *)
Theorem newRequest_rotates (now : Z) (s : ClientInfo) (cs : list RecordCall) :
  _cur s ≠ _prev s →
  let s1 := foldl record s cs in
  let s2 := newRequest now s1 in
  _prev s2 = _cur s1 ∧ _cur s2 = _prev s1 ∧
  prevInfo s2 = curInfo s1 ∧
  prevInfo s2 = foldl recorded (curInfo s) cs ∧
  shardHostsWritten (prevInfo s2) = shardHostsWritten (curInfo s) ∪ writtenHosts cs ∧
  curInfo s2 = mkRequestInfo ∅ ∅.
Proof.
  intros Hne s1 s2.
  destruct (records_pointers cs s) as [Hc Hp].
  destruct (newRequest_pointers now s1) as [Hc2 Hp2].
  assert (Hprev : prevInfo s2 = curInfo s1).
  { apply newRequest_prev. subst s1. by rewrite Hc, Hp. }
  assert (Hacc : curInfo s1 = foldl recorded (curInfo s) cs)
    by apply records_cur.
  repeat split; try done.
  - by rewrite Hprev.
  - by rewrite Hprev, Hacc, recorded_shards.
  - apply newRequest_cur.
Qed.

(** C5. [disableForCommand] exchanges the two pointers and touches nothing
    else, neither buffer in particular; done twice it gives back the object
    it started from. *)
Theorem disableForCommand_involutive (s : ClientInfo) :
  let s1 := disableForCommand s in
  _cur s1 = _prev s ∧ _prev s1 = _cur s ∧
  _a s1 = _a s ∧ _b s1 = _b s ∧
  curInfo s1 = prevInfo s ∧ prevInfo s1 = curInfo s ∧
  _sinceLastGetError s1 = _sinceLastGetError s ∧
  disableForCommand s1 = s.
Proof. by destruct s. Qed.

(** *** The position map *)

Lemma lookup_assign (acc : gmap string OpTime) (m : HostOpTimeMap) (host : string) :
  foldl assign acc m !! host
  = match find_last host m with
    | Some t => Some t
    | None => acc !! host
    end.
Proof.
  revert acc. induction m as [|e m IH]; intros acc; simpl; [done|].
  rewrite IH. destruct (find_last host m); [done|].
  unfold assign. rewrite lookup_insert.
  by destruct (decide (cs_toString e.1 = host)).
Qed.

Lemma addHostOpTimes_lookup (m : HostOpTimeMap) (s : ClientInfo) (host : string) :
  hostOpTimes (curInfo (addHostOpTimes m s)) !! host
  = match find_last host m with
    | Some t => Some t
    | None => hostOpTimes (curInfo s) !! host
    end.
Proof. rewrite addHostOpTimes_cur. simpl. apply lookup_assign. Qed.

(** C6. Two [addHostOpTimes] calls that both carry a position for the same
    shard leave the second position in the current buffer, whatever the two
    values are; every other shard keeps the latest position recorded for it,
    or the one it had before. *)
Theorem addHostOpTimes_last_write_wins (s : ClientInfo) (m1 m2 : HostOpTimeMap)
    (host : string) (t1 t2 : OpTime) :
  find_last host m1 = Some t1 →
  find_last host m2 = Some t2 →
  let s' := addHostOpTimes m2 (addHostOpTimes m1 s) in
  hostOpTimes (curInfo s') !! host = Some t2 ∧
  ∀ other : string,
    hostOpTimes (curInfo s') !! other
    = match find_last other m2 with
      | Some t => Some t
      | None => match find_last other m1 with
                | Some t => Some t
                | None => hostOpTimes (curInfo s) !! other
                end
      end.
Proof.
  intros H1 H2 s'. subst s'. split.
  - by rewrite addHostOpTimes_lookup, H2.
  - intros other. by rewrite !addHostOpTimes_lookup.
Qed.

(** *** Peer identity *)

Lemma set_remote_same (s : ClientInfo) (p : HostAndPort) :
  _remote s = p → set_remote s p = s.
Proof. intros <-. by destruct s. Qed.

Lemma newRequest_remote (now : Z) (s : ClientInfo) :
  _remote (newRequest now s) = _remote s.
Proof. unfold_ops. by rewrite store_remote. Qed.

(** What a request boundary does to an object. *)
Lemma newRequest_effect (now : Z) (s : ClientInfo) :
  _cur (newRequest now s) = _prev s ∧
  _prev (newRequest now s) = _cur s ∧
  curInfo (newRequest now s) = mkRequestInfo ∅ ∅ ∧
  _lastAccess (newRequest now s) = Some (to_int now) ∧
  (_cur s ≠ _prev s → prevInfo (newRequest now s) = curInfo s).
Proof.
  destruct (newRequest_pointers now s) as [Hc Hp].
  split; [done|]. split; [done|]. split; [apply newRequest_cur|].
  split; [by open_client s | apply newRequest_prev].
Qed.

(** C4 (as amended). [newPeerRequest] stores the peer whenever the stored
    remote has no port, be it that none was set or that the one set has no
    port, and then passes a request boundary; with a remote that has a port,
    a peer that differs makes it throw [UserException] 13134 and leave the
    object as it was, and a peer that does not differ makes it exactly
    [newRequest].  A second call with the peer of a call that returned
    returns too, and the two calls are two rotations: the pointers are
    exchanged and the new current buffer emptied, then exchanged back and
    the other buffer emptied. *)
Theorem newPeerRequest_cases (now : Z) (peer : HostAndPort) (s : ClientInfo) :
  let r := newPeerRequest now peer s in
  (hasPort (_remote s) = false →
     r = (newRequest now (set_remote s peer), inr tt) ∧
     _remote r.1 = peer ∧
     _cur r.1 = _prev s ∧ _prev r.1 = _cur s ∧
     curInfo r.1 = mkRequestInfo ∅ ∅ ∧
     (_cur s ≠ _prev s → prevInfo r.1 = curInfo s)) ∧
  (hasPort (_remote s) = true → hp_differs (_remote s) peer = true →
     r = (s, inl (UserException 13134
                    ("remotes don't match old [" +:+ hp_toString (_remote s)
                       +:+ "] new [" +:+ hp_toString peer +:+ "]")%string))) ∧
  (hasPort (_remote s) = true → hp_differs (_remote s) peer = false →
     r = (newRequest now s, inr tt) ∧
     _remote r.1 = _remote s ∧
     _cur r.1 = _prev s ∧ _prev r.1 = _cur s ∧
     curInfo r.1 = mkRequestInfo ∅ ∅ ∧
     (_cur s ≠ _prev s → prevInfo r.1 = curInfo s)) ∧
  (∀ (now2 : Z) (s1 : ClientInfo),
     r = (s1, inr tt) →
     ∃ s2 : ClientInfo,
       newPeerRequest now2 peer s1 = (s2, inr tt) ∧
       s2 = newRequest now2 s1 ∧
       _cur s1 = _prev s ∧ _prev s1 = _cur s ∧
       _cur s2 = _cur s ∧ _prev s2 = _prev s ∧
       curInfo s1 = mkRequestInfo ∅ ∅ ∧
       curInfo s2 = mkRequestInfo ∅ ∅ ∧
       _lastAccess s2 = Some (to_int now2) ∧
       (_cur s ≠ _prev s →
        prevInfo s1 = curInfo s ∧ prevInfo s2 = mkRequestInfo ∅ ∅)) ∧
  (∀ (now2 : Z) (peer2 : HostAndPort) (s1 : ClientInfo),
     r = (s1, inr tt) →
     hasPort (_remote s1) = false →
     newPeerRequest now2 peer2 s1
     = (newRequest now2 (set_remote s1 peer2), inr tt)).
Proof.
  intros r. subst r. unfold newPeerRequest.
  split; [|split; [|split; [|split]]].
  - intros ->. cbn [negb fst].
    destruct (newRequest_effect now (set_remote s peer))
      as (Hc & Hp & Hcur & _ & Hprev).
    rewrite newRequest_remote. repeat split; try done.
  - intros -> ->. done.
  - intros -> ->. cbn [negb fst].
    destruct (newRequest_effect now s) as (Hc & Hp & Hcur & _ & Hprev).
    rewrite newRequest_remote. repeat split; try done.
  - intros now2 s1 Hfirst.
    assert (Hs1 : ∃ s0, s1 = newRequest now s0 ∧
                        _cur s0 = _cur s ∧ _prev s0 = _prev s ∧
                        curInfo s0 = curInfo s ∧
                        ((hasPort (_remote s0) = true
                          ∧ hp_differs (_remote s0) peer = false)
                         ∨ _remote s0 = peer)).
    { destruct (hasPort (_remote s)) eqn:Hp; cbn [negb] in Hfirst.
      - destruct (hp_differs (_remote s) peer) eqn:Hd; [done|].
        injection Hfirst as <-. exists s. repeat split; try done. by left.
      - injection Hfirst as <-. exists (set_remote s peer).
        repeat split; try done. by right. }
    destruct Hs1 as (s0 & -> & Hc0 & Hp0 & Hcur0 & Hid).
    destruct (newRequest_effect now s0) as (Hc1 & Hp1 & Hcur1 & _ & Hprev1).
    destruct (newRequest_effect now2 (newRequest now s0))
      as (Hc2 & Hp2 & Hcur2 & Hla2 & Hprev2).
    exists (newRequest now2 (newRequest now s0)).
    assert (Hcall : (if negb (hasPort (_remote (newRequest now s0)))
                     then (newRequest now2 (set_remote (newRequest now s0) peer),
                           inr tt)
                     else if hp_differs (_remote (newRequest now s0)) peer
                          then (newRequest now s0,
                                inl (UserException 13134
                                       ("remotes don't match old ["
                                        +:+ hp_toString (_remote (newRequest now s0))
                                        +:+ "] new [" +:+ hp_toString peer
                                        +:+ "]")%string))
                          else (newRequest now2 (newRequest now s0), inr tt))
                    = (newRequest now2 (newRequest now s0), inr tt)).
    { rewrite newRequest_remote.
      destruct Hid as [[Hp Hd]|Hr].
      - by rewrite Hp, Hd.
      - rewrite Hr. destruct (hasPort peer); cbn [negb].
        + by rewrite hp_differs_irrefl.
        + do 2 f_equal. apply set_remote_same.
          by rewrite newRequest_remote. }
    split; [exact Hcall|]. split; [done|].
    rewrite Hc1, Hp1, Hc2, Hp2, Hc1, Hp1, Hc0, Hp0.
    repeat split; try done.
    + rewrite Hprev1 by congruence. done.
    + rewrite Hprev2 by (rewrite Hc1, Hp1; congruence). done.
  - intros now2 peer2 s1 _ ->. done.
Qed.

(** *** The registry *)

(** C8. With an object already registered, [create] fails the assertion
    16472 and registers nothing new; with none, it builds an object, hands
    it to the registry, runs [newRequest] on it once and returns it, so the
    object starts with an empty current buffer. *)
Theorem create_cases (now : Z) (messagingPort : option MessagingPort) :
  (∀ existing : ClientInfo,
     create now messagingPort (Some existing)
     = (Some existing,
        inl (MassertFailed 16472
               "A ClientInfo already exists for this thread"))) ∧
  (∃ info : ClientInfo,
     create now messagingPort None = (Some info, inr info) ∧
     info = newRequest now
              (set_authorizationSession (ClientInfo_new messagingPort)
                 newAuthorizationSession) ∧
     _cur info = SlotB ∧ _prev info = SlotA ∧
     curInfo info = mkRequestInfo ∅ ∅ ∧
     prevInfo info = mkRequestInfo ∅ ∅ ∧
     _lastAccess info = Some (to_int now)).
Proof.
  split; [done|]. eexists. split; [reflexivity|]. by repeat split.
Qed.

(** *** One shard *)

(** What one turn of the loop body does, read off the shard's reply. *)
Lemma enforceOne_reply (dbName : string) (options : BSONObj) (h : string)
    (t : OpTime) (st : State) :
  ∃ connPtr,
    enforceOne dbName options h t st
    = let cmd := addOpTimeTo options t in
      let r := shardReply h dbName cmd (st_net st) in
      (mkState (st_this st)
         (default (st_errMsg st) (cause r.2))
         r.1
         (st_trace st ++ EvLog options h :: replyEvents h dbName cmd r.2)
         (confirmed r.2) connPtr,
       inr (confirmed r.2)).
Proof.
  unfold enforceOne, shardReply, try_catch, new_ScopedDbConnection, runCommand,
    done_, ext_call, emit, set_ok, set_connPtr, set_errMsg, get_ok, get_connPtr,
    set_net, mbind, M_bind, mret, M_ret; simpl.
  destruct (conn_new h (st_net st)) as [n1 [ex|conn]]; simpl.
  { eexists. by rewrite <- !(assoc_L (++)). }
  destruct (conn_runCommand conn dbName (addOpTimeTo options t) n1)
    as [n2 [ex|[[] result]]]; simpl;
    eexists; by rewrite <- !(assoc_L (++)).
Qed.

Lemma cause_confirmed (r : Reply) : cause r = None ↔ confirmed r = true.
Proof. by destruct r. Qed.

Lemma contacted_app (tr1 tr2 : list Event) :
  contacted (tr1 ++ tr2) = contacted tr1 ++ contacted tr2.
Proof. apply omap_app. Qed.

Lemma contacted_reply (options : BSONObj) (h dbName : string) (cmd : BSONObj)
    (r : Reply) :
  contacted (EvLog options h :: replyEvents h dbName cmd r) = [h].
Proof. by destruct r. Qed.

(** *** The loop *)

Lemma enforceLoop_run (dbName : string) (options : BSONObj)
    (its : list (string * OpTime)) (st : State) :
  ∃ ok connPtr,
    enforceLoop dbName options its st
    = let o := askInTurn dbName options its (st_errMsg st) (st_net st) in
      (mkState (st_this st) (run_errMsg o) (run_net o)
         (st_trace st ++ run_events o) ok connPtr,
       inr (run_ok o)).
Proof.
  revert st. induction its as [|[h t] rest IH]; intros st.
  - exists (st_ok st), (st_connPtr st). simpl.
    rewrite (right_id_L [] (++)). by destruct st.
  - destruct (enforceOne_reply dbName options h t st) as [cp Hone].
    cbn [enforceLoop askInTurn fst snd]. unfold mbind, M_bind at 1.
    rewrite Hone. cbn zeta.
    destruct (shardReply h dbName (addOpTimeTo options t) (st_net st)) as [n r].
    cbn [fst snd].
    destruct (cause r) as [c|] eqn:Hc.
    + assert (confirmed r = false) as ->.
      { destruct (confirmed r) eqn:E; [|done].
        apply cause_confirmed in E. congruence. }
      exists false, cp. cbn.
      by rewrite <- !(assoc_L (++)).
    + assert (confirmed r = true) as -> by by apply cause_confirmed.
      cbn [negb default].
      edestruct IH as (ok & cp' & ->). cbn.
      exists ok, cp'. by rewrite <- !(assoc_L (++)).
Qed.

(** *** Iteration order *)

#[local] Instance key_le_trans : Transitive key_le.
Proof. intros x y z. unfold key_le. apply transitivity. Qed.

#[local] Instance key_le_total : Total key_le.
Proof. intros x y. unfold key_le. apply total, _. Qed.

Lemma map_entries_perm (m : gmap string OpTime) :
  map_entries m ≡ₚ map_to_list m.
Proof. apply merge_sort_Permutation. Qed.

Lemma map_entries_sorted (m : gmap string OpTime) :
  StronglySorted key_le (map_entries m).
Proof. apply StronglySorted_merge_sort; apply _. Qed.

Lemma map_entries_lookup (m : gmap string OpTime) (k : string) (v : OpTime) :
  (k, v) ∈ map_entries m ↔ m !! k = Some v.
Proof. by rewrite map_entries_perm, elem_of_map_to_list. Qed.

Lemma map_entries_NoDup (m : gmap string OpTime) :
  NoDup (map_entries m).*1.
Proof. rewrite map_entries_perm. apply NoDup_fst_map_to_list. Qed.

Lemma map_entries_empty : map_entries (∅ : gmap string OpTime) = [].
Proof. unfold map_entries. by rewrite map_to_list_empty. Qed.

Lemma map_entries_keys (m : gmap string OpTime) (k : string) :
  k ∈ (map_entries m).*1 ↔ is_Some (m !! k).
Proof.
  rewrite list_elem_of_fmap. split.
  - intros ([k' v] & -> & Hin). apply map_entries_lookup in Hin. eauto.
  - intros [v Hv]. exists (k, v). split; [done|]. by apply map_entries_lookup.
Qed.

(** *** The whole call *)

Lemma call_enforceWriteConcern_run (dbName : string) (options : BSONObj)
    (errMsg : string) (s : ClientInfo) (net : Net) :
  call_enforceWriteConcern dbName options errMsg s net
  = let o := askInTurn dbName options (map_entries (getPrevHostOpTimes s))
               errMsg net in
    mkOutcome (inr (run_ok o)) (run_errMsg o) s (run_net o) (run_events o).
Proof.
  unfold call_enforceWriteConcern, enforceWriteConcern, get_this.
  unfold mbind, M_bind at 1. cbn [st_this].
  destruct (decide (getPrevHostOpTimes s = ∅)) as [->|Hne].
  - by rewrite map_entries_empty.
  - edestruct enforceLoop_run as (ok & cp & ->). done.
Qed.

(** Properties of [askInTurn], by induction on the entries. *)

Lemma contacted_turn (options : BSONObj) (h dbName : string) (cmd : BSONObj)
    (r : Reply) (tr : list Event) :
  contacted ((EvLog options h :: replyEvents h dbName cmd r) ++ tr)
  = h :: contacted tr.
Proof. by destruct r. Qed.

Lemma hosts_turn (options : BSONObj) (h dbName : string) (cmd : BSONObj)
    (r : Reply) (tr : list Event) (x : string) :
  x ∈ omap event_host ((EvLog options h :: replyEvents h dbName cmd r) ++ tr)
  ↔ x = h ∨ x ∈ omap event_host tr.
Proof. destruct r; cbn; rewrite !elem_of_cons; tauto. Qed.

Lemma askInTurn_cons (dbName : string) (options : BSONObj) (h : string)
    (t : OpTime) (rest : list (string * OpTime)) (errMsg : string) (net : Net) :
  askInTurn dbName options ((h, t) :: rest) errMsg net
  = let cmd := addOpTimeTo options t in
    let r := shardReply h dbName cmd net in
    let evs := EvLog options h :: replyEvents h dbName cmd r.2 in
    match cause r.2 with
    | Some c =>
        let msg := ("could not enforce write concern on " +:+ h +:+ causedBy c)%string in
        mkRun false msg r.1 (evs ++ [EvWarning msg])
    | None =>
        let o := askInTurn dbName options rest errMsg r.1 in
        mkRun (run_ok o) (run_errMsg o) (run_net o) (evs ++ run_events o)
    end.
Proof. done. Qed.

Lemma askInTurn_first_failure (dbName : string) (options : BSONObj)
    (pre post : list (string * OpTime)) (h : string) (t : OpTime)
    (errMsg : string) (net n1 n2 : Net) (r : Reply) (c : string) :
  AllConfirm dbName options pre net n1 →
  shardReply h dbName (addOpTimeTo options t) n1 = (n2, r) →
  cause r = Some c →
  let o := askInTurn dbName options (pre ++ (h, t) :: post) errMsg net in
  run_ok o = false ∧
  run_errMsg o = ("could not enforce write concern on " +:+ h +:+ causedBy c)%string ∧
  run_net o = n2 ∧
  contacted (run_events o) = pre.*1 ++ [h] ∧
  omap event_host (run_events o) ⊆ pre.*1 ++ [h].
Proof.
  intros Hpre Hr Hc. induction Hpre as [n|h0 t0 rest n n1 n1' Hh0 Hrest IH].
  - rewrite app_nil_l, askInTurn_cons. cbn zeta. rewrite Hr. cbn [fst snd].
    rewrite Hc. cbn [run_ok run_errMsg run_net run_events].
    repeat split.
    + by rewrite contacted_turn.
    + intros x. rewrite hosts_turn. cbn.
      intros [->|Hx]; [by apply list_elem_of_singleton | by inversion Hx].
  - specialize (IH Hr). cbn zeta in IH.
    destruct IH as (Hok & Hmsg & Hnet & Hcont & Hsub).
    rewrite <- app_comm_cons, askInTurn_cons. cbn zeta.
    rewrite Hh0. cbn [fst snd cause run_ok run_errMsg run_net run_events].
    repeat split; try done.
    + by rewrite contacted_turn, Hcont.
    + intros x. rewrite hosts_turn. cbn. rewrite elem_of_cons.
      intros [->|Hx]; [by left | right; by apply Hsub].
Qed.

Lemma askInTurn_hosts (dbName : string) (options : BSONObj)
    (its : list (string * OpTime)) (errMsg : string) (net : Net) :
  let o := askInTurn dbName options its errMsg net in
  contacted (run_events o) `prefix_of` its.*1 ∧
  omap event_host (run_events o) ⊆ its.*1.
Proof.
  revert net. induction its as [|[h t] rest IH]; intros net.
  - split; [done | by intros x].
  - rewrite askInTurn_cons. cbn zeta.
    destruct (shardReply h dbName (addOpTimeTo options t) net) as [n r].
    cbn [fst snd].
    destruct (cause r) as [c|] eqn:Hc; cbn [run_events].
    + split.
      * rewrite contacted_turn. cbn.
        by apply (prefix_app [h] [] (rest.*1)), prefix_nil.
      * intros x. rewrite hosts_turn. cbn. rewrite elem_of_cons.
        intros [->|Hx]; [by left | by inversion Hx].
    + destruct (IH n) as [Hpre Hsub]. cbn zeta in Hpre, Hsub. split.
      * rewrite contacted_turn. cbn. by apply (prefix_app [h]).
      * intros x. rewrite hosts_turn. cbn. rewrite elem_of_cons.
        intros [->|Hx]; [by left | right; by apply Hsub].
Qed.

(** A run that returns [true] went through every entry and left the string
    behind [errMsg] alone; one that returns [false] stopped at a first
    entry whose shard did not confirm. *)
Lemma askInTurn_dichotomy (dbName : string) (options : BSONObj)
    (its : list (string * OpTime)) (errMsg : string) (net : Net) :
  let o := askInTurn dbName options its errMsg net in
  (run_ok o = true ∧ AllConfirm dbName options its net (run_net o)
   ∧ run_errMsg o = errMsg ∧ contacted (run_events o) = its.*1)
  ∨ (run_ok o = false ∧
     ∃ pre h t post n1 r c,
       its = pre ++ (h, t) :: post ∧
       AllConfirm dbName options pre net n1 ∧
       shardReply h dbName (addOpTimeTo options t) n1 = (run_net o, r) ∧
       cause r = Some c).
Proof.
  revert net. induction its as [|[h t] rest IH]; intros net.
  - left. repeat split. constructor.
  - rewrite askInTurn_cons. cbn zeta.
    destruct (shardReply h dbName (addOpTimeTo options t) net) as [n r] eqn:Hr.
    cbn [fst snd].
    destruct (cause r) as [c|] eqn:Hc.
    + right. split; [done|]. exists [], h, t, rest, net, r, c.
      repeat split; try done. constructor.
    + assert (r = Confirmed) as -> by by destruct r.
      destruct (IH n) as [(Hok & Hall & Hmsg & Hcont)
                         |(Hok & pre & h' & t' & post & n1 & r' & c' & -> & Hall & Hr' & Hc')];
        cbn zeta in *.
      * left. cbn [run_ok run_errMsg run_net run_events].
        repeat split; try done.
        -- by econstructor.
        -- by rewrite contacted_turn, Hcont.
      * right. split; [done|].
        exists ((h, t) :: pre), h', t', post, n1, r', c'.
        repeat split; try done. by econstructor.
Qed.

Lemma contacted_hosts (tr : list Event) (h : string) :
  h ∈ contacted tr → h ∈ omap event_host tr.
Proof.
  unfold contacted. rewrite !list_elem_of_omap.
  intros ([] & Hin & Heq); simplify_eq. eauto.
Qed.

Lemma commanded_hosts (tr : list Event) (h : string) :
  h ∈ commanded tr → h ∈ omap event_host tr.
Proof.
  unfold commanded. rewrite !list_elem_of_omap.
  intros ([] & Hin & Heq); simplify_eq. eauto.
Qed.

(** *** Claims about [enforceWriteConcern] *)

(** C3. With no position recorded for the previous request the call returns
    [true] at once: no event, the shard side and the string behind [errMsg]
    as they were. *)
Theorem enforceWriteConcern_nothing_to_confirm (dbName : string)
    (options : BSONObj) (errMsg : string) (s : ClientInfo) (net : Net) :
  getPrevHostOpTimes s = ∅ →
  call_enforceWriteConcern dbName options errMsg s net
  = mkOutcome (inr true) errMsg s net [].
Proof.
  intros Hempty.
  unfold call_enforceWriteConcern, enforceWriteConcern, get_this.
  unfold mbind, M_bind. cbn [st_this].
  by destruct (decide (getPrevHostOpTimes s = ∅)).
Qed.

(** C2. With positions recorded for the previous request, the call never
    throws; the entries it goes through are those of the previous position
    map by ascending key, and the shards it connects to are an initial
    stretch of them; and when the shards before some entry confirm and that
    entry's shard does not, the call returns [false], the message names that
    shard and wraps the cause, that shard is the last one connected to, and
    no event concerns a shard of a later entry.  A [false] result only comes
    about this way. *)
Theorem enforceWriteConcern_fail_fast (dbName : string) (options : BSONObj)
    (errMsg : string) (s : ClientInfo) (net : Net) :
  getPrevHostOpTimes s ≠ ∅ →
  let o := call_enforceWriteConcern dbName options errMsg s net in
  let its := map_entries (getPrevHostOpTimes s) in
  (∃ ok, out_result o = inr ok) ∧
  StronglySorted key_le its ∧
  (∀ k v, (k, v) ∈ its ↔ getPrevHostOpTimes s !! k = Some v) ∧
  contacted (out_trace o) `prefix_of` its.*1 ∧
  (∀ pre h t post n1 n2 r c,
     its = pre ++ (h, t) :: post →
     AllConfirm dbName options pre net n1 →
     shardReply h dbName (addOpTimeTo options t) n1 = (n2, r) →
     cause r = Some c →
     out_result o = inr false ∧
     out_errMsg o
       = ("could not enforce write concern on " +:+ h +:+ causedBy c)%string ∧
     contacted (out_trace o) = pre.*1 ++ [h] ∧
     (∀ later, later ∈ post.*1 → later ∉ omap event_host (out_trace o)) ∧
     out_net o = n2) ∧
  (out_result o = inr false →
   ∃ pre h t post n1 r c,
     its = pre ++ (h, t) :: post ∧
     AllConfirm dbName options pre net n1 ∧
     shardReply h dbName (addOpTimeTo options t) n1 = (out_net o, r) ∧
     cause r = Some c).
Proof.
  intros _ o its. subst o its. rewrite call_enforceWriteConcern_run. cbn zeta.
  cbn [out_result out_errMsg out_net out_trace].
  split; [eauto|]. split; [apply map_entries_sorted|].
  split; [apply map_entries_lookup|].
  split; [apply askInTurn_hosts|]. split.
  - intros pre h t post n1 n2 r c Hits Hpre Hr Hc.
    pose proof (map_entries_NoDup (getPrevHostOpTimes s)) as Hnd.
    rewrite Hits in *.
    destruct (askInTurn_first_failure dbName options pre post h t errMsg
                net n1 n2 r c Hpre Hr Hc) as (Hok & Hmsg & Hnet & Hcont & Hsub).
    cbn zeta in *. rewrite Hok. repeat split; try done.
    intros later Hlater Hin. apply Hsub in Hin.
    rewrite fmap_app, fmap_cons in Hnd. cbn in Hnd.
    apply NoDup_app in Hnd as (_ & Hdisj & Hnd').
    apply NoDup_cons in Hnd' as [Hh _].
    apply elem_of_app in Hin as [Hin|Hin].
    + apply (Hdisj later Hin). by right.
    + apply list_elem_of_singleton in Hin as ->. done.
  - intros Hfalse.
    destruct (askInTurn_dichotomy dbName options
                (map_entries (getPrevHostOpTimes s)) errMsg net)
      as [(Hok & _)|(_ & Hex)]; cbn zeta in *; [congruence | exact Hex].
Qed.

(** C9. A shard that is in the previous request's written set but has no
    recorded position is left alone: no event of the call concerns it, and
    the call comes out the same on any object with the same position map,
    whatever its written sets hold. *)
Theorem enforceWriteConcern_ignores_shardHostsWritten (dbName : string)
    (options : BSONObj) (errMsg : string) (s : ClientInfo) (net : Net)
    (shard : string) :
  shard ∈ getPrevShardHosts s →
  getPrevHostOpTimes s !! shard = None →
  let o := call_enforceWriteConcern dbName options errMsg s net in
  (shard ∉ omap event_host (out_trace o)) ∧
  (shard ∉ contacted (out_trace o)) ∧
  (shard ∉ commanded (out_trace o)) ∧
  ∀ s' : ClientInfo,
    getPrevHostOpTimes s' = getPrevHostOpTimes s →
    let o' := call_enforceWriteConcern dbName options errMsg s' net in
    out_result o' = out_result o ∧ out_errMsg o' = out_errMsg o ∧
    out_net o' = out_net o ∧ out_trace o' = out_trace o.
Proof.
  intros _ Hnone o.
  assert (Hno : shard ∉ omap event_host (out_trace o)).
  { subst o. rewrite call_enforceWriteConcern_run. cbn zeta. cbn [out_trace].
    intros Hin.
    apply (proj2 (askInTurn_hosts dbName options _ errMsg net)) in Hin.
    apply map_entries_keys in Hin as [v Hv]. congruence. }
  split; [done|]. split; [|split].
  - intros Hin. by apply Hno, contacted_hosts.
  - intros Hin. by apply Hno, commanded_hosts.
  - intros s' Heq o'. subst o o'.
    rewrite !call_enforceWriteConcern_run. cbn zeta. by rewrite Heq.
Qed.

(** C10. Whatever the outcome, the call returns and leaves the object it is
    called on exactly as it was: both buffers, both pointers, the
    since-last-getLastError set, the remote and the auto-split flag. *)
Theorem enforceWriteConcern_frame (dbName : string) (options : BSONObj)
    (errMsg : string) (s : ClientInfo) (net : Net) :
  let o := call_enforceWriteConcern dbName options errMsg s net in
  (∃ ok, out_result o = inr ok) ∧
  out_this o = s ∧
  curInfo (out_this o) = curInfo s ∧
  prevInfo (out_this o) = prevInfo s ∧
  _sinceLastGetError (out_this o) = _sinceLastGetError s ∧
  _remote (out_this o) = _remote s ∧
  _autoSplitOk (out_this o) = _autoSplitOk s ∧
  ∀ st : State, st_this (enforceWriteConcern dbName options st).1 = st_this st.
Proof.
  intros o. subst o. rewrite call_enforceWriteConcern_run. cbn zeta.
  cbn [out_result out_this]. repeat split; eauto.
  intros st. unfold enforceWriteConcern, get_this. unfold mbind, M_bind at 1.
  destruct (decide (getPrevHostOpTimes (st_this st) = ∅)); [done|].
  by edestruct enforceLoop_run as (ok & cp & ->).
Qed.

(** *** The two pointers *)

Lemma perform_pointers (s : ClientInfo) (o : Op) :
  (_cur (perform s o) = _cur s ∧ _prev (perform s o) = _prev s)
  ∨ (_cur (perform s o) = _prev s ∧ _prev (perform s o) = _cur s).
Proof.
  destruct o as [now|now peer| |h|m| | | | |db options errMsg net];
    cbn [perform].
  - right. apply newRequest_pointers.
  - unfold newPeerRequest.
    destruct (hasPort (_remote s)); cbn [negb fst].
    + destruct (hp_differs (_remote s) peer); cbn [fst].
      * by left.
      * right. apply newRequest_pointers.
    + right. apply (newRequest_pointers now (set_remote s peer)).
  - by right.
  - left. apply addShardHost_pointers.
  - left. apply addHostOpTimes_pointers.
  - left. unfold clearRequestInfo. by rewrite store_cur, store_prev.
  - by left.
  - by left.
  - by left.
  - left. by rewrite call_enforceWriteConcern_run.
Qed.

(** C7. From construction on and through any sequence of operations, the
    two pointers designate the two buffers of the object, one each; an
    operation either leaves both pointers alone or exchanges them. *)
Theorem pointers_distinct (messagingPort : option MessagingPort) (ops : list Op) :
  let s := foldl perform (ClientInfo_new messagingPort) ops in
  _cur s ≠ _prev s ∧
  ((_cur s = SlotA ∧ _prev s = SlotB) ∨ (_cur s = SlotB ∧ _prev s = SlotA)) ∧
  ∀ o : Op,
    (_cur (perform s o) = _cur s ∧ _prev (perform s o) = _prev s)
    ∨ (_cur (perform s o) = _prev s ∧ _prev (perform s o) = _cur s).
Proof.
  intros s.
  assert (Hinv : (_cur s = SlotA ∧ _prev s = SlotB)
                 ∨ (_cur s = SlotB ∧ _prev s = SlotA)).
  { subst s. induction ops as [|o ops IH] using rev_ind.
    - by left.
    - rewrite foldl_app. cbn [foldl].
      destruct (perform_pointers (foldl perform (ClientInfo_new messagingPort) ops) o)
        as [[-> ->]|[-> ->]]; tauto. }
  split; [|split; [done | apply perform_pointers]].
  destruct Hinv as [[-> ->]|[-> ->]]; done.
Qed.

End Properties.

(** ** The statements at work on the simulated deployment *)

(** A request that writes to A and B and records a position for A, then the
    next request boundary. *)
Lemma newRequest_rotates_witness :
  _cur Sim.fresh ≠ _prev Sim.fresh ∧
  prevInfo (newRequest 1700000001 (foldl record Sim.fresh Sim.calls))
  = curInfo (foldl record Sim.fresh Sim.calls).
Proof.
  split; [done|].
  by apply (newRequest_rotates 1700000001 Sim.fresh Sim.calls).
Defined.

(** A, B and C hold positions; B refuses.  A is asked, then B, and C never. *)
Lemma enforceWriteConcern_fail_fast_witness :
  let o := call_enforceWriteConcern "db" Sim.w2 "" Sim.abc Sim.b_refuses in
  getPrevHostOpTimes Sim.abc ≠ ∅ ∧
  out_result o = inr false ∧
  out_errMsg o = "could not enforce write concern on B :: caused by :: ok" ∧
  contacted (out_trace o) = ["A"; "B"].
Proof.
  assert (Hne : getPrevHostOpTimes Sim.abc ≠ ∅).
  { intros H. apply (f_equal (λ m : gmap string Z, m !! "A")) in H.
    vm_compute in H. discriminate H. }
  split; [exact Hne|].
  destruct (enforceWriteConcern_fail_fast "db" Sim.w2 ""
              Sim.abc Sim.b_refuses Hne) as (_ & _ & _ & _ & Hfirst & _).
  destruct (Hfirst Sim.before_b "B" 20 Sim.after_b
              ([("B", Sim.Refuses)], 1%nat) ([("B", Sim.Refuses)], 2%nat)
              (Refused Sim.not_ok) "ok")
    as (Hres & Hmsg & Hcont & _).
  - by vm_compute.
  - unfold Sim.before_b.
    eapply (AllConfirm_cons (Ext := Sim.sim)); [by vm_compute | constructor].
  - by vm_compute.
  - by vm_compute.
  - by repeat split.
Defined.

(** A session just created has nothing to confirm. *)
Lemma enforceWriteConcern_nothing_to_confirm_witness :
  getPrevHostOpTimes Sim.fresh = ∅ ∧
  call_enforceWriteConcern "db" Sim.w2 "" Sim.fresh Sim.b_refuses
  = mkOutcome (inr true) "" Sim.fresh Sim.b_refuses [].
Proof.
  split; [done|].
  by apply (enforceWriteConcern_nothing_to_confirm "db" Sim.w2 ""
              Sim.fresh Sim.b_refuses).
Defined.

(** A first peer is adopted, the same peer is accepted again with the
    pointers exchanged and exchanged back, another one is turned down. *)
Lemma newPeerRequest_cases_witness :
  let s := ClientInfo_new None in
  let s1 := (newPeerRequest 1700000000 Sim.peer1 s).1 in
  let s2 := (newPeerRequest 1700000001 Sim.peer1 s1).1 in
  hasPort (_remote s) = false ∧
  _remote s1 = Sim.peer1 ∧
  (_cur s1 = _prev s ∧ _prev s1 = _cur s) ∧
  (newPeerRequest 1700000001 Sim.peer1 s1).2 = inr tt ∧
  (_cur s2 = _cur s ∧ _prev s2 = _prev s) ∧
  (∃ msg, newPeerRequest 1700000001 Sim.peer2 s1
          = (s1, inl (UserException 13134 msg))).
Proof.
  split; [done|].
  destruct (newPeerRequest_cases 1700000000 Sim.peer1 (ClientInfo_new None))
    as (Hadopt & _ & _ & Hagain & _).
  destruct (Hadopt eq_refl) as (_ & Hremote & Hc1 & Hp1 & _).
  destruct (Hagain 1700000001 _ eq_refl)
    as (s2 & Hcall & _ & _ & _ & Hc2 & Hp2 & _).
  split; [exact Hremote|]. split; [by split|].
  split; [exact (f_equal snd Hcall)|].
  split.
  { split.
    - exact (eq_trans (f_equal (λ r, _cur r.1) Hcall) Hc2).
    - exact (eq_trans (f_equal (λ r, _prev r.1) Hcall) Hp2). }
  eexists.
  by apply (newPeerRequest_cases 1700000001 Sim.peer2).
Defined.

(** A first peer without a port is stored but does not count as set: the
    next call, from a peer that differs from it, is not turned down; that
    peer is stored in its place and a request boundary is passed. *)
Lemma newPeerRequest_portless_counterexample :
  let s1 := (newPeerRequest 1700000000 Sim.portless (ClientInfo_new None)).1 in
  let r2 := newPeerRequest 1700000001 Sim.other s1 in
  (newPeerRequest 1700000000 Sim.portless (ClientInfo_new None)).2 = inr tt ∧
  _remote s1 = Sim.portless ∧
  hp_differs (_remote s1) Sim.other = true ∧
  r2.2 = inr tt ∧
  _remote r2.1 = Sim.other ∧
  _cur r2.1 = _prev s1 ∧ _prev r2.1 = _cur s1 ∧
  ¬ (∃ failed, r2.2 = inl failed).
Proof.
  repeat split; try done. by intros [failed Hf].
Qed.

(** Position 30 for A, then position 10 for A: 10 stays. *)
Lemma addHostOpTimes_last_write_wins_witness :
  find_last "A" Sim.first_map = Some 30 ∧
  find_last "A" Sim.second_map = Some 10 ∧
  hostOpTimes (curInfo (addHostOpTimes Sim.second_map
                          (addHostOpTimes Sim.first_map Sim.fresh))) !! "A"
  = Some 10.
Proof.
  split; [done|]. split; [done|].
  by apply (addHostOpTimes_last_write_wins Sim.fresh Sim.first_map
              Sim.second_map "A" 30 10).
Defined.

(** D was written to in the previous request but has no position. *)
Lemma enforceWriteConcern_ignores_shardHostsWritten_witness :
  let o := call_enforceWriteConcern "db" Sim.w2 "" Sim.abc Sim.b_refuses in
  "D" ∈ getPrevShardHosts Sim.abc ∧
  getPrevHostOpTimes Sim.abc !! "D" = None ∧
  "D" ∉ contacted (out_trace o).
Proof.
  assert (Hin : "D" ∈ getPrevShardHosts Sim.abc).
  { apply (bool_decide_unpack _). by vm_compute. }
  assert (Hnone : getPrevHostOpTimes Sim.abc !! "D" = None) by by vm_compute.
  split; [exact Hin|]. split; [exact Hnone|].
  by apply (enforceWriteConcern_ignores_shardHostsWritten
              "db" Sim.w2 "" Sim.abc Sim.b_refuses "D" Hin Hnone).
Defined.

(** ** Further properties of the class *)

Section Further.
Context `{Ext : Externals} {port_eq_dec : EqDecision MessagingPort}.
Local Open Scope list_scope.

Ltac unfold_members :=
  unfold curInfo, prevInfo, getPrevHostOpTimes, getPrevShardHosts, newRequest,
    disableForCommand, addShardHost, addHostOpTime, clearRequestInfo,
    clearSinceLastGetError, noAutoSplit, disconnect, set_cur_prev,
    set_lastAccess, set_sinceLastGetError, set_remote, set_autoSplitOk,
    RequestInfo_clear in *.

(** Case analysis on an object, its two pointers included. *)
Ltac by_fields s :=
  unfold_members;
  destruct s as [mp au rm a b [] [] sl la aso]; simpl in *.

(** *** The registry *)

Lemma create_fresh (now : Z) (messagingPort : option MessagingPort) :
  create now messagingPort None
  = (Some (newRequest now (set_authorizationSession (ClientInfo_new messagingPort)
                             newAuthorizationSession)),
     inr (newRequest now (set_authorizationSession (ClientInfo_new messagingPort)
                            newAuthorizationSession))).
Proof. done. Qed.

Lemma create_taken (now : Z) (messagingPort : option MessagingPort) (i : ClientInfo) :
  create now messagingPort (Some i)
  = (Some i, inl (MassertFailed 16472 "A ClientInfo already exists for this thread")).
Proof. done. Qed.

Lemma get_found (now : Z) (messagingPort : option MessagingPort) (i : ClientInfo) :
  get now messagingPort (Some i)
  = if bool_decide (messagingPort = None) || bool_decide (messagingPort = port i)
    then (Some i, inr i)
    else (Some i, inl (MassertFailed 16483 (get_mismatch_msg i))).
Proof.
  unfold get, massert.
  by destruct (bool_decide (messagingPort = None)
               || bool_decide (messagingPort = port i)).
Qed.

Lemma get_fresh (now : Z) (messagingPort : option MessagingPort) :
  get now messagingPort None = create now messagingPort None.
Proof.
  unfold get. rewrite create_fresh. unfold massert.
  replace (bool_decide (messagingPort = None) || bool_decide (messagingPort = _))
    with true; [done|].
  symmetry. apply orb_true_iff. right. by apply bool_decide_eq_true_2.
Qed.

(** X1. Once [get] has returned an object, asking again with the same port,
    or with no port, returns that very object and leaves the registry as it
    is: nothing is created and no request boundary is passed. *)
Theorem get_idempotent (now1 now2 : Z) (messagingPort : option MessagingPort)
    (tl tl1 : TlInfo) (i : ClientInfo) :
  get now1 messagingPort tl = (tl1, inr i) →
  tl1 = Some i ∧
  exists_ tl1 = true ∧
  get now2 messagingPort tl1 = (tl1, inr i) ∧
  get now2 None tl1 = (tl1, inr i).
Proof.
  intros Hget.
  assert (Hok : tl1 = Some i ∧
                (bool_decide (messagingPort = None)
                 || bool_decide (messagingPort = port i)) = true).
  { destruct tl as [i0|].
    - rewrite get_found in Hget.
      destruct (bool_decide (messagingPort = None)
                || bool_decide (messagingPort = port i0)) eqn:Hc;
        simplify_eq. done.
    - rewrite get_fresh, create_fresh in Hget. simplify_eq. split; [done|].
      apply orb_true_iff. right. by apply bool_decide_eq_true_2. }
  destruct Hok as [-> Hc].
  rewrite !get_found, Hc. done.
Qed.

(** X2. [get] fails only in one way: an object is registered, a port is
    given, and it is not the port the object was built with.  The failure is
    assertion 16483, and the registry is left as it was. *)
Theorem get_fails_iff (now : Z) (messagingPort : option MessagingPort)
    (tl tl1 : TlInfo) (failed : Failure) :
  get now messagingPort tl = (tl1, inl failed)
  ↔ ∃ (i : ClientInfo) (p : MessagingPort),
      tl = Some i ∧ messagingPort = Some p ∧ port i ≠ Some p ∧
      tl1 = tl ∧ failed = MassertFailed 16483 (get_mismatch_msg i).
Proof.
  split.
  - destruct tl as [i|].
    + rewrite get_found.
      destruct messagingPort as [p|]; [|done]. cbn [orb bool_decide].
      destruct (decide (Some p = port i)) as [Heq|Hne].
      * rewrite (bool_decide_eq_true_2 _ Heq).
        replace (bool_decide (Some p = None)) with false by done. done.
      * replace (bool_decide (Some p = None)) with false by done.
        rewrite (bool_decide_eq_false_2 _ Hne). cbn. intros ?; simplify_eq.
        exists i, p. repeat split; try done; congruence.
    + by rewrite get_fresh, create_fresh.
  - intros (i & p & -> & -> & Hne & -> & ->).
    rewrite get_found.
    replace (bool_decide (Some p = None)) with false by done.
    rewrite bool_decide_eq_false_2; [done | congruence].
Qed.

(** X3. An object that [getCurrent] had to create was built with the null
    port, so every later [get] that names a port fails, saying that the
    stored port is NULL. *)
Theorem get_port_after_getCurrent (now now2 : Z) (p : MessagingPort) :
  let tl1 := (getCurrent now None).1 in
  ∃ msg,
    get now2 (Some p) tl1 = (tl1, inl (MassertFailed 16483 msg)) ∧
    msg = ("AbstractMessagingPort was provided to ClientInfo::get"
           +:+ " but differs from the one stored in the current ClientInfo object. "
           +:+ "Current ClientInfo messaging port is NULL")%string.
Proof.
  intros tl1. subst tl1. unfold getCurrent.
  rewrite get_fresh, create_fresh. cbn [fst]. rewrite get_found.
  eexists. split; [done|]. done.
Qed.

(** X4. After [create] or [get] has returned an object, the registry holds
    it, and a further [create] fails assertion 16472 without changing the
    registry. *)
Theorem create_after_registration (now now2 : Z)
    (messagingPort messagingPort2 : option MessagingPort)
    (tl tl1 : TlInfo) (i : ClientInfo) :
  create now messagingPort tl = (tl1, inr i)
  ∨ get now messagingPort tl = (tl1, inr i) →
  exists_ tl1 = true ∧
  create now2 messagingPort2 tl1
  = (tl1, inl (MassertFailed 16472 "A ClientInfo already exists for this thread")).
Proof.
  intros Hreg.
  assert (tl1 = Some i) as ->.
  { destruct Hreg as [Hc|Hg].
    - destruct tl as [i0|]; [by rewrite create_taken in Hc|].
      rewrite create_fresh in Hc. by simplify_eq.
    - destruct tl as [i0|].
      + rewrite get_found in Hg.
        destruct (bool_decide (messagingPort = None)
                  || bool_decide (messagingPort = port i0)); by simplify_eq.
      + rewrite get_fresh, create_fresh in Hg. by simplify_eq. }
  done.
Qed.

(** X5. [getCurrent] never fails: it returns the registered object
    untouched, or registers and returns a new one built with the null port;
    [hasCurrent] holds afterwards. *)
Theorem getCurrent_total (now : Z) (tl : TlInfo) :
  ∃ i : ClientInfo,
    getCurrent now tl = (Some i, inr i) ∧
    hasCurrent (getCurrent now tl).1 = true ∧
    match tl with
    | Some i0 => i = i0
    | None => i = newRequest now (set_authorizationSession (ClientInfo_new None)
                                    newAuthorizationSession)
    end.
Proof.
  unfold getCurrent. destruct tl as [i0|].
  - exists i0. by rewrite get_found.
  - eexists. rewrite get_fresh, create_fresh. done.
Qed.

(** *** What the operations leave alone *)

Lemma addHostOpTimes_frame (m : HostOpTimeMap) (s : ClientInfo) :
  _sinceLastGetError (addHostOpTimes m s) = _sinceLastGetError s ∧
  _remote (addHostOpTimes m s) = _remote s ∧
  _autoSplitOk (addHostOpTimes m s) = _autoSplitOk s.
Proof.
  unfold addHostOpTimes. revert s.
  induction m as [|e m IH]; intros s; cbn [foldl]; [done|].
  destruct (IH (addHostOpTime s e)) as (-> & -> & ->).
  unfold addHostOpTime.
  by rewrite store_sinceLastGetError, store_remote, store_autoSplitOk.
Qed.

Lemma enforceWriteConcern_this (dbName : string) (options : BSONObj)
    (errMsg : string) (s : ClientInfo) (net : Net) :
  out_this (call_enforceWriteConcern dbName options errMsg s net) = s.
Proof. by rewrite call_enforceWriteConcern_run. Qed.

Lemma newPeerRequest_state (now : Z) (peer : HostAndPort) (s : ClientInfo) :
  (newPeerRequest now peer s).1 = s
  ∨ (newPeerRequest now peer s).1 = newRequest now s
  ∨ (hasPort (_remote s) = false
     ∧ (newPeerRequest now peer s).1 = newRequest now (set_remote s peer)).
Proof.
  unfold newPeerRequest.
  destruct (hasPort (_remote s)); cbn [negb].
  - destruct (hp_differs (_remote s) peer); [by left | by right; left].
  - by right; right.
Qed.

Lemma perform_since (s : ClientInfo) (o : Op) :
  _sinceLastGetError (perform s o) = since_step (_sinceLastGetError s) o.
Proof.
  destruct o as [now|now peer| |h|m| | | | |db options errMsg net];
    cbn [perform since_step].
  - by by_fields s.
  - destruct (newPeerRequest_state now peer s) as [->|[->|[_ ->]]];
      [done | by by_fields s | by by_fields s].
  - done.
  - by by_fields s.
  - apply addHostOpTimes_frame.
  - by by_fields s.
  - done.
  - done.
  - done.
  - by rewrite enforceWriteConcern_this.
Qed.

(** X6. The since-last-getLastError set follows [addShardHost] and its own
    clearing call and nothing else: request boundaries, [disableForCommand],
    [clearRequestInfo] and all the other operations leave it as it is. *)
Theorem sinceLastGetError_history (s : ClientInfo) (ops : list Op) :
  sinceLastGetError (foldl perform s ops)
  = foldl since_step (sinceLastGetError s) ops.
Proof.
  unfold sinceLastGetError. revert s.
  induction ops as [|o ops IH]; intros s; cbn [foldl]; [done|].
  by rewrite IH, perform_since.
Qed.

Lemma perform_remote (s : ClientInfo) (o : Op) :
  hasPort (_remote s) = true → _remote (perform s o) = _remote s.
Proof.
  intros Hp.
  destruct o as [now|now peer| |h|m| | | | |db options errMsg net];
    cbn [perform].
  - apply newRequest_remote.
  - destruct (newPeerRequest_state now peer s) as [->|[->|[Hno _]]];
      [done | apply newRequest_remote | congruence].
  - done.
  - by by_fields s.
  - apply addHostOpTimes_frame.
  - unfold clearRequestInfo. apply store_remote.
  - done.
  - done.
  - done.
  - by rewrite enforceWriteConcern_this.
Qed.

(** X7. Once the stored remote has a port, no operation changes it: the
    peer of a connection is fixed for the life of the object. *)
Theorem remote_fixed (s : ClientInfo) (ops : list Op) :
  hasPort (_remote s) = true →
  getRemote (foldl perform s ops) = getRemote s.
Proof.
  unfold getRemote. revert s.
  induction ops as [|o ops IH]; intros s Hp; cbn [foldl]; [done|].
  rewrite IH; rewrite (perform_remote s o Hp); done.
Qed.

Lemma perform_autoSplitOk (s : ClientInfo) (o : Op) :
  _autoSplitOk s = false → _autoSplitOk (perform s o) = false.
Proof.
  intros Hf.
  destruct o as [now|now peer| |h|m| | | | |db options errMsg net];
    cbn [perform].
  - by by_fields s.
  - destruct (newPeerRequest_state now peer s) as [->|[->|[_ ->]]];
      [done | by by_fields s | by by_fields s].
  - done.
  - by by_fields s.
  - by rewrite (proj2 (proj2 (addHostOpTimes_frame m s))).
  - unfold clearRequestInfo. by rewrite store_autoSplitOk.
  - done.
  - done.
  - done.
  - by rewrite enforceWriteConcern_this.
Qed.

(** X8. [noAutoSplit] is final: whatever operations follow, [autoSplitOk]
    answers false.  A new object answers what the global switch says. *)
Theorem noAutoSplit_final (s : ClientInfo) (ops : list Op)
    (messagingPort : option MessagingPort) :
  autoSplitOk (foldl perform (noAutoSplit s) ops) = false ∧
  autoSplitOk (ClientInfo_new messagingPort) = ShouldAutoSplit.
Proof.
  split; [|done].
  assert (H : ∀ s0, _autoSplitOk s0 = false →
                    _autoSplitOk (foldl perform s0 ops) = false).
  { induction ops as [|o ops IH]; intros s0 Hf; cbn [foldl]; [done|].
    by apply IH, perform_autoSplitOk. }
  unfold autoSplitOk. by rewrite (H (noAutoSplit s)).
Qed.

(** *** Request boundaries *)

Lemma records_other (cs : list RecordCall) (s : ClientInfo) (q : Slot) :
  _cur s ≠ q → deref (foldl record s cs) q = deref s q.
Proof.
  revert s. induction cs as [|c cs IH]; intros s Hq; cbn [foldl]; [done|].
  rewrite IH.
  - destruct c; [by apply addShardHost_other | by apply addHostOpTimes_other].
  - by rewrite (proj1 (record_pointers s c)).
Qed.


(** X10. A request boundary right after [disableForCommand] does not
    rotate: the pointers end where they were, the current buffer is
    emptied and the previous one is kept. *)
Theorem newRequest_after_disableForCommand (now : Z) (s : ClientInfo) :
  newRequest now (disableForCommand s)
  = clearRequestInfo (set_lastAccess s (to_int now)).
Proof. by destruct s. Qed.

(** X11. What is recorded while a request is in flight is not looked at by
    [enforceWriteConcern] before the next boundary: the call comes out the
    same with or without those records. *)
Theorem enforceWriteConcern_ignores_current (dbName : string) (options : BSONObj)
    (errMsg : string) (s : ClientInfo) (net : Net) (cs : list RecordCall) :
  _cur s ≠ _prev s →
  let o := call_enforceWriteConcern dbName options errMsg s net in
  let o' := call_enforceWriteConcern dbName options errMsg (foldl record s cs) net in
  prevInfo (foldl record s cs) = prevInfo s ∧
  out_result o' = out_result o ∧ out_errMsg o' = out_errMsg o ∧
  out_net o' = out_net o ∧ out_trace o' = out_trace o.
Proof.
  intros Hne o o'.
  assert (Hprev : prevInfo (foldl record s cs) = prevInfo s).
  { unfold prevInfo. rewrite (proj2 (records_pointers cs s)).
    by apply records_other. }
  split; [done|]. subst o o'. rewrite !call_enforceWriteConcern_run.
  unfold getPrevHostOpTimes. fold (prevInfo (foldl record s cs)) (prevInfo s).
  by rewrite Hprev.
Qed.

(** X12. [addShardHost] treats its sets as sets: naming a shard twice is
    the same as naming it once, and the order of two calls does not
    matter. *)
Theorem addShardHost_set_like (h1 h2 : string) (s : ClientInfo) :
  addShardHost h1 (addShardHost h1 s) = addShardHost h1 s ∧
  addShardHost h1 (addShardHost h2 s) = addShardHost h2 (addShardHost h1 s).
Proof.
  assert (Hidem : ∀ X : gset string, {[h1]} ∪ ({[h1]} ∪ X) = {[h1]} ∪ X).
  { intros X. by rewrite (assoc_L (∪)), (idemp_L (∪)). }
  assert (Hswap : ∀ X : gset string,
            {[h1]} ∪ ({[h2]} ∪ X) = {[h2]} ∪ ({[h1]} ∪ X)).
  { intros X. by rewrite !(assoc_L (∪)), (comm_L (∪) {[h1]}). }
  split; by_fields s; by rewrite ?Hidem, ?(Hswap sl), ?(Hswap (shardHostsWritten _)).
Qed.

Lemma dom_assign (m : HostOpTimeMap) (acc : gmap string OpTime) :
  dom (foldl assign acc m) = printed_keys m ∪ dom acc.
Proof.
  unfold printed_keys. revert acc.
  induction m as [|e m IH]; intros acc; cbn [foldl fmap list_fmap list_to_set].
  - by rewrite (left_id_L ∅ (∪)).
  - rewrite IH. unfold assign. rewrite dom_insert_L.
    rewrite !(assoc_L (∪)). f_equal. apply (comm_L (∪)).
Qed.

(** X13. [addHostOpTimes] adds the keys it is given to those the current
    buffer has, touches neither the written set nor the
    since-last-getLastError set, and two calls in a row are one call with the
    entries put end to end; with no entry it does nothing. *)
Theorem addHostOpTimes_keys (m1 m2 : HostOpTimeMap) (s : ClientInfo) :
  dom (hostOpTimes (curInfo (addHostOpTimes m1 s)))
  = printed_keys m1 ∪ dom (hostOpTimes (curInfo s)) ∧
  shardHostsWritten (curInfo (addHostOpTimes m1 s)) = shardHostsWritten (curInfo s) ∧
  sinceLastGetError (addHostOpTimes m1 s) = sinceLastGetError s ∧
  addHostOpTimes m2 (addHostOpTimes m1 s) = addHostOpTimes (m1 ++ m2) s ∧
  addHostOpTimes [] s = s.
Proof.
  rewrite addHostOpTimes_cur. cbn [recorded hostOpTimes shardHostsWritten].
  split; [apply dom_assign|]. split; [done|].
  split; [apply addHostOpTimes_frame|].
  split; [|done]. unfold addHostOpTimes. by rewrite foldl_app.
Qed.

(** X14. [clearRequestInfo] withdraws the request in flight from
    confirmation: after the next boundary [enforceWriteConcern] finds
    nothing to confirm and returns true without touching a shard. *)
Theorem clearRequestInfo_withdraws (now : Z) (dbName : string) (options : BSONObj)
    (errMsg : string) (s : ClientInfo) (net : Net) :
  let s' := newRequest now (clearRequestInfo s) in
  prevInfo s' = mkRequestInfo ∅ ∅ ∧
  call_enforceWriteConcern dbName options errMsg s' net
  = mkOutcome (inr true) errMsg s' net [].
Proof.
  intros s'.
  assert (Hprev : prevInfo s' = mkRequestInfo ∅ ∅) by (subst s'; by by_fields s).
  split; [done|].
  rewrite call_enforceWriteConcern_run.
  unfold getPrevHostOpTimes. fold (prevInfo s'). rewrite Hprev.
  cbn [hostOpTimes]. by rewrite map_entries_empty.
Qed.

(** X15. The time a request boundary stores is the clock value cut to 32
    bits: always within the range of [int], equal to the clock value when
    that is within range, and the same for clock values 2^32 apart. *)
Theorem newRequest_lastAccess (now : Z) (s : ClientInfo) :
  _lastAccess (newRequest now s) = Some (to_int now) ∧
  (- 2 ^ 31 ≤ to_int now < 2 ^ 31)%Z ∧
  ((- 2 ^ 31 ≤ now < 2 ^ 31)%Z → to_int now = now) ∧
  to_int (now + 2 ^ 32) = to_int now.
Proof.
  split; [by by_fields s|]. unfold to_int. split; [|split].
  - pose proof (Z.mod_pos_bound (now + 2 ^ 31) (2 ^ 32)). lia.
  - intros Hr. rewrite Z.mod_small; lia.
  - replace (now + 2 ^ 32 + 2 ^ 31)%Z with (now + 2 ^ 31 + 1 * 2 ^ 32)%Z by lia.
    by rewrite Z.mod_add.
Qed.

(** *** More on [enforceWriteConcern] *)

(** The events of one turn, seen through each projection of the trace. *)
Lemma commanded_turn (options : BSONObj) (h dbName : string) (cmd : BSONObj)
    (r : Reply) (tr : list Event) :
  commanded ((EvLog options h :: replyEvents h dbName cmd r) ++ tr)
  = match r with ConnectThrew _ => [] | _ => [h] end ++ commanded tr.
Proof. by destruct r. Qed.

Lemma released_turn (options : BSONObj) (h dbName : string) (cmd : BSONObj)
    (r : Reply) (tr : list Event) :
  released ((EvLog options h :: replyEvents h dbName cmd r) ++ tr)
  = match r with ConnectThrew _ => [] | _ => [h] end ++ released tr.
Proof. by destruct r. Qed.

Lemma warnings_turn (options : BSONObj) (h dbName : string) (cmd : BSONObj)
    (r : Reply) (tr : list Event) :
  warnings ((EvLog options h :: replyEvents h dbName cmd r) ++ tr) = warnings tr.
Proof. by destruct r. Qed.

Lemma command_in_turn (options : BSONObj) (h0 dbName : string) (cmd0 : BSONObj)
    (r : Reply) (h db : string) (cmd : BSONObj) :
  EvRunCommand h db cmd ∈ EvLog options h0 :: replyEvents h0 dbName cmd0 r →
  h = h0 ∧ db = dbName ∧ cmd = cmd0.
Proof.
  destruct r; cbn; rewrite !elem_of_cons, elem_of_nil;
    intros H; repeat (destruct H as [H|H]; try discriminate H);
    try done; by simplify_eq.
Qed.

Lemma askInTurn_all_confirm (dbName : string) (options : BSONObj)
    (its : list (string * OpTime)) (errMsg : string) (net n' : Net) :
  AllConfirm dbName options its net n' →
  let o := askInTurn dbName options its errMsg net in
  run_ok o = true ∧ run_errMsg o = errMsg ∧ run_net o = n' ∧
  contacted (run_events o) = its.*1 ∧
  commanded (run_events o) = its.*1 ∧
  released (run_events o) = its.*1 ∧
  warnings (run_events o) = [].
Proof.
  intros Hall. induction Hall as [n|h t rest n n1 n2 Hh Hrest IH].
  - done.
  - cbn zeta in IH. destruct IH as (Hok & Hmsg & Hnet & Hcont & Hcmd & Hrel & Hw).
    rewrite askInTurn_cons. cbn zeta. rewrite Hh.
    cbn [fst snd cause run_ok run_errMsg run_net run_events].
    rewrite contacted_turn, commanded_turn, released_turn, warnings_turn.
    rewrite Hcont, Hcmd, Hrel. done.
Qed.

(** X16. The call returns true exactly when every shard with a recorded
    position confirms when asked in key order; then each of them was
    connected to, sent the command and handed back once, in that order, no
    warning was logged and the string behind [errMsg] is as the caller left
    it. *)
Theorem enforceWriteConcern_success (dbName : string) (options : BSONObj)
    (errMsg : string) (s : ClientInfo) (net : Net) :
  let o := call_enforceWriteConcern dbName options errMsg s net in
  let its := map_entries (getPrevHostOpTimes s) in
  (out_result o = inr true ↔ ∃ n', AllConfirm dbName options its net n') ∧
  (out_result o = inr true →
   AllConfirm dbName options its net (out_net o) ∧
   out_errMsg o = errMsg ∧
   contacted (out_trace o) = its.*1 ∧
   commanded (out_trace o) = its.*1 ∧
   released (out_trace o) = its.*1 ∧
   warnings (out_trace o) = []).
Proof.
  intros o its. subst o its. rewrite call_enforceWriteConcern_run. cbn zeta.
  cbn [out_result out_errMsg out_net out_trace].
  set (its := map_entries (getPrevHostOpTimes s)).
  assert (Hall : run_ok (askInTurn dbName options its errMsg net) = true →
                 AllConfirm dbName options its net
                   (run_net (askInTurn dbName options its errMsg net))).
  { intros Hok.
    destruct (askInTurn_dichotomy dbName options its errMsg net)
      as [(_ & H & _)|(Hf & _)]; cbn zeta in *; [done | congruence]. }
  split; [split|].
  - intros Hok. eexists. apply Hall. congruence.
  - intros [n' Hn'].
    by rewrite (proj1 (askInTurn_all_confirm dbName options its errMsg net n' Hn')).
  - intros Hok. assert (Hok' := Hall ltac:(congruence)).
    split; [done|].
    by destruct (askInTurn_all_confirm dbName options its errMsg net _ Hok')
      as (_ & ? & _ & ? & ? & ? & ?).
Qed.



Lemma askInTurn_commands (dbName : string) (options : BSONObj)
    (its : list (string * OpTime)) (errMsg : string) (net : Net)
    (h db : string) (cmd : BSONObj) :
  EvRunCommand h db cmd ∈ run_events (askInTurn dbName options its errMsg net) →
  db = dbName ∧ ∃ t, (h, t) ∈ its ∧ cmd = addOpTimeTo options t.
Proof.
  revert net. induction its as [|[h0 t0] rest IH]; intros net.
  - cbn. by rewrite elem_of_nil.
  - rewrite askInTurn_cons. cbn zeta.
    destruct (shardReply h0 dbName (addOpTimeTo options t0) net) as [n r].
    cbn [fst snd].
    destruct (cause r) as [c|] eqn:Hc; cbn [run_events];
      rewrite elem_of_app; intros [Hin|Hin].
    + apply command_in_turn in Hin as (-> & -> & ->).
      split; [done|]. exists t0. split; [by left | done].
    + apply list_elem_of_singleton in Hin. discriminate Hin.
    + apply command_in_turn in Hin as (-> & -> & ->).
      split; [done|]. exists t0. split; [by left | done].
    + destruct (IH n Hin) as (-> & t & Ht & ->).
      split; [done|]. exists t. split; [by right | done].
Qed.

(** X18. Every command the call sends goes to a shard with a recorded
    position, against the database it was asked for, and is the requested
    options with that shard's own position added. *)
Theorem enforceWriteConcern_commands (dbName : string) (options : BSONObj)
    (errMsg : string) (s : ClientInfo) (net : Net)
    (h db : string) (cmd : BSONObj) :
  EvRunCommand h db cmd
    ∈ out_trace (call_enforceWriteConcern dbName options errMsg s net) →
  db = dbName ∧
  ∃ t, getPrevHostOpTimes s !! h = Some t ∧ cmd = addOpTimeTo options t.
Proof.
  rewrite call_enforceWriteConcern_run. cbn zeta. cbn [out_trace].
  intros Hin. apply askInTurn_commands in Hin as (-> & t & Ht & ->).
  split; [done|]. exists t. split; [|done]. by apply map_entries_lookup.
Qed.

(** X19. No shard is connected to twice in one call, and the call connects
    to no more shards than there are recorded positions. *)
Theorem enforceWriteConcern_once_each (dbName : string) (options : BSONObj)
    (errMsg : string) (s : ClientInfo) (net : Net) :
  let o := call_enforceWriteConcern dbName options errMsg s net in
  NoDup (contacted (out_trace o)) ∧
  (length (contacted (out_trace o)) ≤ size (getPrevHostOpTimes s))%nat.
Proof.
  intros o. subst o. rewrite call_enforceWriteConcern_run. cbn zeta.
  cbn [out_trace].
  destruct (askInTurn_hosts dbName options (map_entries (getPrevHostOpTimes s))
              errMsg net) as [Hpre _]. cbn zeta in Hpre.
  split.
  - destruct Hpre as [k Hk].
    pose proof (map_entries_NoDup (getPrevHostOpTimes s)) as Hnd.
    rewrite Hk in Hnd. by apply NoDup_app in Hnd as [? _].
  - apply prefix_length in Hpre. rewrite length_fmap in Hpre.
    assert (Hlen : length (map_entries (getPrevHostOpTimes s))
                   = size (getPrevHostOpTimes s)).
    { rewrite (Permutation_length (map_entries_perm (getPrevHostOpTimes s))).
      apply length_map_to_list. }
    by rewrite <- Hlen.
Qed.

Lemma askInTurn_warnings (dbName : string) (options : BSONObj)
    (its : list (string * OpTime)) (errMsg : string) (net : Net) :
  let o := askInTurn dbName options its errMsg net in
  warnings (run_events o) = if run_ok o then [] else [run_errMsg o].
Proof.
  revert net. induction its as [|[h t] rest IH]; intros net; [done|].
  rewrite askInTurn_cons. cbn zeta.
  destruct (shardReply h dbName (addOpTimeTo options t) net) as [n r].
  cbn [fst snd].
  destruct (cause r) as [c|] eqn:Hc; cbn [run_ok run_errMsg run_events];
    rewrite warnings_turn; [done | apply IH].
Qed.

(** X20. The call logs a warning only when it fails, then exactly one, and
    its text is the message handed back through [errMsg]. *)
Theorem enforceWriteConcern_warns (dbName : string) (options : BSONObj)
    (errMsg : string) (s : ClientInfo) (net : Net) :
  let o := call_enforceWriteConcern dbName options errMsg s net in
  (out_result o = inr true → warnings (out_trace o) = []) ∧
  (out_result o = inr false → warnings (out_trace o) = [out_errMsg o]).
Proof.
  intros o. subst o. rewrite call_enforceWriteConcern_run. cbn zeta.
  cbn [out_result out_errMsg out_trace].
  pose proof (askInTurn_warnings dbName options
                (map_entries (getPrevHostOpTimes s)) errMsg net) as Hw.
  cbn zeta in Hw. rewrite Hw.
  split; intros Hr; injection Hr as ->; done.
Qed.

Lemma askInTurn_errMsg (dbName : string) (options : BSONObj)
    (its : list (string * OpTime)) (e1 e2 : string) (net : Net) :
  let o1 := askInTurn dbName options its e1 net in
  let o2 := askInTurn dbName options its e2 net in
  run_ok o1 = run_ok o2 ∧ run_net o1 = run_net o2 ∧
  run_events o1 = run_events o2 ∧
  (if run_ok o1 then run_errMsg o1 = e1 ∧ run_errMsg o2 = e2
   else run_errMsg o1 = run_errMsg o2).
Proof.
  revert net. induction its as [|[h t] rest IH]; intros net; [done|].
  rewrite !askInTurn_cons. cbn zeta.
  destruct (shardReply h dbName (addOpTimeTo options t) net) as [n r].
  cbn [fst snd].
  destruct (cause r) as [c|] eqn:Hc; cbn [run_ok run_errMsg run_net run_events];
    [done|].
  destruct (IH n) as (Hok & Hnet & Hev & Hmsg). cbn zeta in *.
  by rewrite Hev.
Qed.

(** X21. What the caller had in the string behind [errMsg] has no bearing
    on the call: result, shard side and trace are the same for any two
    starting strings; the string comes back untouched on success and is
    overwritten by the same message on failure. *)
Theorem enforceWriteConcern_errMsg_in (dbName : string) (options : BSONObj)
    (e1 e2 : string) (s : ClientInfo) (net : Net) :
  let o1 := call_enforceWriteConcern dbName options e1 s net in
  let o2 := call_enforceWriteConcern dbName options e2 s net in
  out_result o1 = out_result o2 ∧ out_net o1 = out_net o2 ∧
  out_trace o1 = out_trace o2 ∧
  (out_result o1 = inr true → out_errMsg o1 = e1 ∧ out_errMsg o2 = e2) ∧
  (out_result o1 = inr false → out_errMsg o1 = out_errMsg o2).
Proof.
  intros o1 o2. subst o1 o2. rewrite !call_enforceWriteConcern_run. cbn zeta.
  cbn [out_result out_errMsg out_net out_trace].
  destruct (askInTurn_errMsg dbName options (map_entries (getPrevHostOpTimes s))
              e1 e2 net) as (Hok & Hnet & Hev & Hmsg). cbn zeta in *.
  rewrite Hok in Hmsg |- *. rewrite Hnet, Hev.
  split; [done|]. split; [done|]. split; [done|].
  split; intros Hr; injection Hr as Hr; by rewrite Hr in Hmsg.
Qed.

End Further.

(** ** The further statements at work on the simulated deployment *)

(** A first [get] with a port registers an object for it; a second one
    returns the same object. *)
Lemma get_idempotent_witness :
  get 1700000000 (Some Sim.port1) None = (Some Sim.registered, inr Sim.registered) ∧
  get 1700000005 (Some Sim.port1) (Some Sim.registered)
  = (Some Sim.registered, inr Sim.registered).
Proof.
  assert (H : get 1700000000 (Some Sim.port1) None
              = (Some Sim.registered, inr Sim.registered)) by by vm_compute.
  split; [exact H|].
  apply (get_idempotent 1700000000 1700000005 (Some Sim.port1) None
           (Some Sim.registered) Sim.registered H).
Defined.

(** [create], then [create] again. *)
Lemma create_after_registration_witness :
  (create 1700000000 None None = (Some Sim.created, inr Sim.created)
   ∨ get 1700000000 None None = (Some Sim.created, inr Sim.created)) ∧
  create 1700000001 (Some Sim.port1) (Some Sim.created)
  = (Some Sim.created,
     inl (MassertFailed 16472 "A ClientInfo already exists for this thread")).
Proof.
  assert (H : create 1700000000 None None = (Some Sim.created, inr Sim.created)
              ∨ get 1700000000 None None = (Some Sim.created, inr Sim.created))
    by by left.
  split; [exact H|].
  apply (create_after_registration 1700000000 1700000001 None (Some Sim.port1)
           None (Some Sim.created) Sim.created H).
Defined.

(** A request from another peer, a boundary and a disconnect later, the
    remote is still the first peer. *)
Lemma remote_fixed_witness :
  hasPort (_remote Sim.with_remote) = true ∧
  getRemote (foldl perform Sim.with_remote Sim.ops) = getRemote Sim.with_remote.
Proof.
  split; [done|]. by apply (remote_fixed Sim.with_remote Sim.ops).
Defined.


(** Recording into [abc] changes nothing about confirming it. *)
Lemma enforceWriteConcern_ignores_current_witness :
  _cur Sim.abc ≠ _prev Sim.abc ∧
  out_trace (call_enforceWriteConcern "db" Sim.w2 ""
               (foldl record Sim.abc Sim.calls) Sim.b_refuses)
  = out_trace (call_enforceWriteConcern "db" Sim.w2 "" Sim.abc Sim.b_refuses).
Proof.
  split; [done|].
  by apply (enforceWriteConcern_ignores_current "db" Sim.w2 "" Sim.abc
              Sim.b_refuses Sim.calls).
Defined.

(** The command sent to B carries B's position, 20. *)
Lemma enforceWriteConcern_commands_witness :
  EvRunCommand "B" "db" Sim.cmd_b
    ∈ out_trace (call_enforceWriteConcern "db" Sim.w2 "" Sim.abc Sim.b_refuses) ∧
  ∃ t, getPrevHostOpTimes Sim.abc !! "B" = Some t ∧ Sim.cmd_b = addOpTimeTo Sim.w2 t.
Proof.
  assert (H : EvRunCommand "B" "db" Sim.cmd_b
                ∈ out_trace (call_enforceWriteConcern "db" Sim.w2 "" Sim.abc
                               Sim.b_refuses)).
  { assert (Htr : out_trace (call_enforceWriteConcern "db" Sim.w2 "" Sim.abc
                               Sim.b_refuses)
                  = [EvLog Sim.w2 "A"; EvConnect "A";
                     EvRunCommand "A" "db" (addOpTimeTo Sim.w2 30); EvDone "A";
                     EvLog Sim.w2 "B"; EvConnect "B";
                     EvRunCommand "B" "db" Sim.cmd_b; EvDone "B";
                     EvWarning
                       "could not enforce write concern on B :: caused by :: ok"])
      by by vm_compute.
    rewrite Htr. do 6 apply list_elem_of_further. apply list_elem_of_here. }
  split; [exact H|].
  apply (enforceWriteConcern_commands "db" Sim.w2 "" Sim.abc Sim.b_refuses
           "B" "db" Sim.cmd_b H).
Defined.
